(** * DNS upload path of mcis (package [dns]) and the scoring/arm model

    A shallow embedding of [internal/dns]: the [Provider] interface,
    [NewProvider], [Upload], and the Cloudflare and Vercel REST clients.
    Go functions returning [(T, error)] become computations in a small
    state-and-error monad; the network is an arbitrary deterministic
    server that every request is logged against.  The [ctx] argument is
    left out: a cancelled context shows as an error of [client.Do].
    [json.Marshal] of the request payloads (maps of strings, ints and
    bools) cannot fail, so requests carry the payload itself. *)

From Stdlib Require Import String Ascii List ZArith Bool Lia QArith.
From Stdlib Require Import DecimalString Lqa.
From Stdlib Require Import Permutation.
Import ListNotations.
Open Scope string_scope.
Open Scope Z_scope.

Set Implicit Arguments.

(** ** Go errors *)

(** [errorString] is an error carrying only a message (errors.New, or
    fmt.Errorf without the %w verb); [wrapError prefix e] is
    [fmt.Errorf(prefix + "%w", e)]. *)
Inductive error : Type :=
| errorString (msg : string)
| wrapError (prefix : string) (err : error).

Fixpoint Error (e : error) : string :=
  match e with
  | errorString msg => msg
  | wrapError prefix err => prefix ++ Error err
  end.

(** errors.Unwrap *)
Definition Unwrap (e : error) : option error :=
  match e with
  | errorString _ => None
  | wrapError _ err => Some err
  end.

(** [Wraps e inner]: [inner] is on the Unwrap chain of [e] (errors.Is
    by identity). *)
Inductive Wraps : error -> error -> Prop :=
| Wraps_refl e : Wraps e e
| Wraps_step prefix e inner : Wraps e inner -> Wraps (wrapError prefix e) inner.

(** ** net/netip addresses *)

(** [netip.Addr] keeps a 128-bit value and a tag [z] that is [z0] for the
    zero Addr, [z4] for an IPv4 address and a zone otherwise.  The three
    constructors are the three cases of that tag. *)
Inductive Addr : Type :=
| AddrZero
| Addr4 (v : N)
| Addr6 (hi lo : N) (zone : string).

Definition Is4 (ip : Addr) : bool :=
  match ip with Addr4 _ => true | _ => false end.

Definition Is6 (ip : Addr) : bool :=
  match ip with Addr6 _ _ _ => true | _ => false end.

(** ** net/http as seen by the clients *)

Inductive Method : Type := MethodGet | MethodPost | MethodDelete.

(** Values stored in the [map[string]interface{}] request payloads. *)
Inductive JSONValue : Type :=
| JString (s : string)
| JInt (n : Z)
| JBool (b : bool).

Definition Payload : Type := list (string * JSONValue).

Record Request : Type := mkRequest {
  ReqMethod : Method;
  ReqURL : string;
  ReqHeader : list (string * string);
  ReqBody : option Payload
}.

(** What [io.ReadAll(resp.Body)] gives: the bytes read and the error. *)
Record Response : Type := mkResponse {
  StatusCode : Z;
  Body : string * option error
}.

(** Result of [client.Do]. *)
Definition DoResult : Type := (error + Response)%type.

Definition Header_Set (key value : string) (h : list (string * string))
  : list (string * string) :=
  filter (fun kv => negb (fst kv =? key)%string) h ++ [(key, value)].

(** ** JSON shapes of the two APIs *)

Record cfDNSRecord : Type := mkCfDNSRecord {
  cfID : string;
  cfType : string;
  cfName : string;
  cfContent : string;
  cfTTL : Z;
  cfProxied : bool
}.

Record cfError : Type := mkCfError {
  cfCode : Z;
  cfMessage : string
}.

Record cfListResponse : Type := mkCfListResponse {
  cfListSuccess : bool;
  cfListErrors : list cfError;
  cfListResult : list cfDNSRecord
}.

Record cfCreateResponse : Type := mkCfCreateResponse {
  cfCreateSuccess : bool;
  cfCreateErrors : list cfError;
  cfCreateResult : cfDNSRecord
}.

Record cfDeleteResponse : Type := mkCfDeleteResponse {
  cfDeleteSuccess : bool;
  cfDeleteErrors : list cfError
}.

Record cfZoneResponse : Type := mkCfZoneResponse {
  cfZoneSuccess : bool;
  cfZoneErrors : list cfError;
  cfZoneResultName : string
}.

Record vercelDNSRecord : Type := mkVercelDNSRecord {
  vcID : string;
  vcType : string;
  vcName : string;
  vcValue : string;
  vcTTL : Z
}.

Record vercelListResponse : Type := mkVercelListResponse {
  vcRecords : list vercelDNSRecord;
  vcPaginationCount : Z;
  vcPaginationNext : string;
  vcPaginationPrev : string
}.

Record vercelErrorResponse : Type := mkVercelErrorResponse {
  vcErrorCode : string;
  vcErrorMessage : string
}.

(** ** Library functions the package calls

    These are functions of the Go standard library, taken as they are:
    the text form of an address, URL escaping, URL validation inside
    [http.NewRequestWithContext] ([None] when the URL parses), and
    [json.Unmarshal] at each of the response types. *)
Record GoLib : Type := mkGoLib {
  Addr_String : Addr -> string;
  url_PathEscape : string -> string;
  url_QueryEscape : string -> string;
  url_Parse_err : string -> option error;
  Unmarshal_cfZone : string -> error + cfZoneResponse;
  Unmarshal_cfList : string -> error + cfListResponse;
  Unmarshal_cfCreate : string -> error + cfCreateResponse;
  Unmarshal_cfDelete : string -> error + cfDeleteResponse;
  Unmarshal_vercelList : string -> error + vercelListResponse;
  Unmarshal_vercelError : string -> error + vercelErrorResponse
}.

(** strings.Contains *)
Fixpoint strings_Contains (s substr : string) : bool :=
  String.prefix substr s ||
  match s with
  | EmptyString => false
  | String _ s' => strings_Contains s' substr
  end.

(** The %d verb on an int. *)
Definition itoa (n : Z) : string := NilZero.string_of_int (Z.to_int n).

(** ** The monad of Go functions returning [(T, error)] over a state *)

Definition M (St A : Type) : Type := St -> (error + A) * St.

Definition ret {St A} (a : A) : M St A := fun s => (inr a, s).
Definition fail {St A} (e : error) : M St A := fun s => (inl e, s).
Definition bind {St A B} (c : M St A) (k : A -> M St B) : M St B :=
  fun s =>
    match c s with
    | (inl e, s') => (inl e, s')
    | (inr a, s') => k a s'
    end.

Declare Scope go_scope.
Delimit Scope go_scope with go.
Notation "x <- c1 ;; c2" := (bind c1 (fun x => c2))
  (at level 61, c1 at next level, right associativity) : go_scope.
Notation "c1 ;;; c2" := (bind c1 (fun _ => c2))
  (at level 61, right associativity) : go_scope.
Open Scope go_scope.

(** [if err != nil { return f(err) }] around a call. *)
Definition orReturn {St A} (c : M St A) (f : error -> error) : M St A :=
  fun s =>
    match c s with
    | (inl e, s') => (inl (f e), s')
    | (inr a, s') => (inr a, s')
    end.

(** A pure [(T, error)] result inside the monad. *)
Definition liftE {St A} (r : error + A) : M St A :=
  match r with
  | inl e => fail e
  | inr a => ret a
  end.

(** [for _, x := range xs { if err := body(x); err != nil { return ... } }] *)
Fixpoint forRange {St A} (xs : list A) (body : A -> M St unit) : M St unit :=
  match xs with
  | [] => ret tt
  | x :: xs' => body x ;;; forRange xs' body
  end.

(** ** The Provider interface (dns.go) *)

(** A value of interface type [Provider] whose methods run over a
    provider state [W]. *)
Record Provider (W : Type) : Type := mkProvider {
  Name : string;
  DeleteRecords : string -> bool -> M W unit;
  CreateRecords : string -> list Addr -> M W unit
}.

(** ** The network *)

(** Everything sent through an [http.Client], with what came back. *)
Definition Exchange : Type := (Request * DoResult)%type.

Section Network.

(** The remote side: any deterministic server state machine. *)
Variable S : Type.
Variable serve : S -> Request -> S * DoResult.
Variable lib : GoLib.

Record Net : Type := mkNet {
  srv : S;
  sent : list Exchange
}.

(** A provider struct [P] together with the network it talks to; the
    methods with receiver [p *P] run over this state. *)
Record State (P : Type) : Type := mkState {
  self : P;
  net : Net
}.

Definition getSelf {P} : M (State P) P := fun st => (inr (self st), st).
Definition putSelf {P} (p : P) : M (State P) unit :=
  fun st => (inr tt, mkState p (net st)).

(** http.NewRequestWithContext with a valid method and context. *)
Definition NewRequestWithContext (method : Method) (url : string)
           (body : option Payload) : error + Request :=
  match url_Parse_err lib url with
  | Some e => inl e
  | None => inr (mkRequest method url [] body)
  end.

Definition setHeader (key value : string) (req : Request) : Request :=
  mkRequest (ReqMethod req) (ReqURL req)
            (Header_Set key value (ReqHeader req)) (ReqBody req).

(** p.client.Do(req) *)
Definition client_Do {P} (req : Request) : M (State P) Response :=
  fun st =>
    let '(s', r) := serve (srv (net st)) req in
    (r, mkState (self st) (mkNet s' (sent (net st) ++ [(req, r)]))).

(** io.ReadAll(resp.Body) with [if err != nil { return err }] *)
Definition ReadAll {St} (resp : Response) : M St string :=
  match snd (Body resp) with
  | Some e => fail e
  | None => ret (fst (Body resp))
  end.

(** body, _ := io.ReadAll(resp.Body) *)
Definition ReadAll_ (resp : Response) : string := fst (Body resp).

(** *** Vercel (vercel.go) *)

Definition vercelAPIBase : string := "https://api.vercel.com".

Record VercelProvider : Type := mkVercelProvider {
  vc_token : string;
  vc_domain : string;
  vc_teamID : string
}.

Definition NewVercelProvider (token domain teamID : string) : VercelProvider :=
  mkVercelProvider token domain teamID.

Definition Vercel_Name : string := "vercel".

Definition Vercel_buildURL (p : VercelProvider) (path : string) : string :=
  let u := vercelAPIBase ++ path in
  if negb (vc_teamID p =? "")%string then
    if strings_Contains u "?" then
      u ++ "&teamId=" ++ url_QueryEscape lib (vc_teamID p)
    else
      u ++ "?teamId=" ++ url_QueryEscape lib (vc_teamID p)
  else u.

(** The [resp.StatusCode >= 400] branch shared by the three calls. *)
Definition vercelAPIError (status : Z) (body : string) : error :=
  match Unmarshal_vercelError lib body with
  | inr errResp =>
      if negb (vcErrorMessage errResp =? "")%string then
        errorString ("vercel API error: " ++ vcErrorMessage errResp)
      else errorString ("vercel API error: status " ++ itoa status)
  | inl _ => errorString ("vercel API error: status " ++ itoa status)
  end.

(** The request every Vercel call builds: NewRequestWithContext, then
    the Authorization and Content-Type headers. *)
Definition Vercel_request (p : VercelProvider) (method : Method)
           (reqURL : string) (body : option Payload) : error + Request :=
  match NewRequestWithContext method reqURL body with
  | inl e => inl e
  | inr req =>
      inr (setHeader "Content-Type" "application/json"
             (setHeader "Authorization" ("Bearer " ++ vc_token p) req))
  end.

Definition Vercel_listRecords : M (State VercelProvider) (list vercelDNSRecord) :=
  p <- getSelf ;;
  let path := "/v4/domains/" ++ url_PathEscape lib (vc_domain p) ++ "/records" in
  let reqURL := Vercel_buildURL p path in
  req <- liftE (Vercel_request p MethodGet reqURL None) ;;
  resp <- client_Do req ;;
  body <- ReadAll resp ;;
  if StatusCode resp >=? 400 then
    fail (vercelAPIError (StatusCode resp) body)
  else
    result <- orReturn (liftE (Unmarshal_vercelList lib body))
                       (wrapError "parse response: ") ;;
    ret (vcRecords result).

Definition Vercel_deleteRecord (recordID : string) : M (State VercelProvider) unit :=
  p <- getSelf ;;
  let path := "/v2/domains/" ++ url_PathEscape lib (vc_domain p)
              ++ "/records/" ++ url_PathEscape lib recordID in
  let reqURL := Vercel_buildURL p path in
  req <- liftE (Vercel_request p MethodDelete reqURL None) ;;
  resp <- client_Do req ;;
  if StatusCode resp >=? 400 then
    fail (vercelAPIError (StatusCode resp) (ReadAll_ resp))
  else ret tt.

Definition Vercel_createPayload (name recordType value : string) : Payload :=
  [("name", JString name); ("type", JString recordType);
   ("value", JString value); ("ttl", JInt 60)].

Definition Vercel_createRecord (name recordType value : string)
  : M (State VercelProvider) unit :=
  p <- getSelf ;;
  let path := "/v2/domains/" ++ url_PathEscape lib (vc_domain p) ++ "/records" in
  let reqURL := Vercel_buildURL p path in
  let payload := Vercel_createPayload name recordType value in
  req <- liftE (Vercel_request p MethodPost reqURL (Some payload)) ;;
  resp <- client_Do req ;;
  if StatusCode resp >=? 400 then
    fail (vercelAPIError (StatusCode resp) (ReadAll_ resp))
  else ret tt.

Definition recordTypeOf (ipv6 : bool) : string := if ipv6 then "AAAA" else "A".

Definition Vercel_DeleteRecords (subdomain : string) (ipv6 : bool)
  : M (State VercelProvider) unit :=
  let recordType := recordTypeOf ipv6 in
  records <- Vercel_listRecords ;;
  forRange records (fun rec =>
    if (vcType rec =? recordType)%string && (vcName rec =? subdomain)%string then
      orReturn (Vercel_deleteRecord (vcID rec))
               (wrapError ("delete record " ++ vcID rec ++ ": "))
    else ret tt).

Definition Vercel_CreateRecords (subdomain : string) (ips : list Addr)
  : M (State VercelProvider) unit :=
  forRange ips (fun ip =>
    let recordType := recordTypeOf (Is6 ip) in
    orReturn (Vercel_createRecord subdomain recordType (Addr_String lib ip))
             (wrapError ("create record for " ++ Addr_String lib ip ++ ": "))).

(** *** Cloudflare (cloudflare.go) *)

Definition cloudflareAPIBase : string := "https://api.cloudflare.com/client/v4".

Record CloudflareProvider : Type := mkCloudflareProvider {
  cf_token : string;
  cf_zoneID : string;
  cf_zoneName : string
}.

Definition NewCloudflareProvider (token zoneID : string) : CloudflareProvider :=
  mkCloudflareProvider token zoneID "".

Definition Cloudflare_Name : string := "cloudflare".

(** The [!result.Success] branch shared by the four calls. *)
Definition cloudflareAPIError (errors : list cfError) : error :=
  match errors with
  | e0 :: _ => errorString ("cloudflare API error: " ++ cfMessage e0)
  | [] => errorString "cloudflare API error: unknown"
  end.

(** The request every Cloudflare call builds: NewRequestWithContext,
    then the Authorization and Content-Type headers. *)
Definition Cloudflare_request (p : CloudflareProvider) (method : Method)
           (url : string) (body : option Payload) : error + Request :=
  match NewRequestWithContext method url body with
  | inl e => inl e
  | inr req =>
      inr (setHeader "Content-Type" "application/json"
             (setHeader "Authorization" ("Bearer " ++ cf_token p) req))
  end.

Definition getZoneName : M (State CloudflareProvider) string :=
  p <- getSelf ;;
  if negb (cf_zoneName p =? "")%string then ret (cf_zoneName p)
  else
    let url := cloudflareAPIBase ++ "/zones/" ++ cf_zoneID p in
    req <- liftE (Cloudflare_request p MethodGet url None) ;;
    resp <- client_Do req ;;
    body <- ReadAll resp ;;
    result <- orReturn (liftE (Unmarshal_cfZone lib body))
                       (wrapError "parse response: ") ;;
    if negb (cfZoneSuccess result) then
      fail (cloudflareAPIError (cfZoneErrors result))
    else
      putSelf (mkCloudflareProvider (cf_token p) (cf_zoneID p)
                                    (cfZoneResultName result)) ;;;
      p' <- getSelf ;;
      ret (cf_zoneName p').

Definition buildFQDN (subdomain : string) : M (State CloudflareProvider) string :=
  zoneName <- orReturn getZoneName (wrapError "get zone name: ") ;;
  if (subdomain =? "")%string || (subdomain =? "@")%string then ret zoneName
  else ret (subdomain ++ "." ++ zoneName).

Definition Cloudflare_listRecords (name recordType : string)
  : M (State CloudflareProvider) (list cfDNSRecord) :=
  p <- getSelf ;;
  let url := cloudflareAPIBase ++ "/zones/" ++ cf_zoneID p
             ++ "/dns_records?type=" ++ recordType ++ "&name=" ++ name in
  req <- liftE (Cloudflare_request p MethodGet url None) ;;
  resp <- client_Do req ;;
  body <- ReadAll resp ;;
  result <- orReturn (liftE (Unmarshal_cfList lib body))
                     (wrapError "parse response: ") ;;
  if negb (cfListSuccess result) then
    fail (cloudflareAPIError (cfListErrors result))
  else ret (cfListResult result).

Definition Cloudflare_deleteRecord (recordID : string)
  : M (State CloudflareProvider) unit :=
  p <- getSelf ;;
  let url := cloudflareAPIBase ++ "/zones/" ++ cf_zoneID p
             ++ "/dns_records/" ++ recordID in
  req <- liftE (Cloudflare_request p MethodDelete url None) ;;
  resp <- client_Do req ;;
  body <- ReadAll resp ;;
  result <- orReturn (liftE (Unmarshal_cfDelete lib body))
                     (wrapError "parse response: ") ;;
  if negb (cfDeleteSuccess result) then
    fail (cloudflareAPIError (cfDeleteErrors result))
  else ret tt.

Definition Cloudflare_createPayload (name recordType content : string) : Payload :=
  [("type", JString recordType); ("name", JString name);
   ("content", JString content); ("ttl", JInt 1); ("proxied", JBool false)].

Definition Cloudflare_createRecord (name recordType content : string)
  : M (State CloudflareProvider) unit :=
  p <- getSelf ;;
  let url := cloudflareAPIBase ++ "/zones/" ++ cf_zoneID p ++ "/dns_records" in
  let payload := Cloudflare_createPayload name recordType content in
  req <- liftE (Cloudflare_request p MethodPost url (Some payload)) ;;
  resp <- client_Do req ;;
  body <- ReadAll resp ;;
  result <- orReturn (liftE (Unmarshal_cfCreate lib body))
                     (wrapError "parse response: ") ;;
  if negb (cfCreateSuccess result) then
    fail (cloudflareAPIError (cfCreateErrors result))
  else ret tt.

Definition Cloudflare_DeleteRecords (subdomain : string) (ipv6 : bool)
  : M (State CloudflareProvider) unit :=
  let recordType := recordTypeOf ipv6 in
  fqdn <- buildFQDN subdomain ;;
  records <- Cloudflare_listRecords fqdn recordType ;;
  forRange records (fun rec =>
    orReturn (Cloudflare_deleteRecord (cfID rec))
             (wrapError ("delete record " ++ cfID rec ++ ": "))).

Definition Cloudflare_CreateRecords (subdomain : string) (ips : list Addr)
  : M (State CloudflareProvider) unit :=
  fqdn <- buildFQDN subdomain ;;
  forRange ips (fun ip =>
    let recordType := recordTypeOf (Is6 ip) in
    orReturn (Cloudflare_createRecord fqdn recordType (Addr_String lib ip))
             (wrapError ("create record for " ++ Addr_String lib ip ++ ": "))).

(** The two implementations of [Provider]. *)
Definition CloudflareImpl : Provider (State CloudflareProvider) :=
  mkProvider Cloudflare_Name Cloudflare_DeleteRecords Cloudflare_CreateRecords.

Definition VercelImpl : Provider (State VercelProvider) :=
  mkProvider Vercel_Name Vercel_DeleteRecords Vercel_CreateRecords.

End Network.

(** ** NewProvider (dns.go) *)

Record Config : Type := mkConfig {
  cfgProvider : string;
  cfgToken : string;
  cfgZone : string;
  cfgSubdomain : string;
  cfgUploadCount : Z;
  cfgTeamID : string
}.

(** The dynamic value of a non-nil [Provider] returned by [NewProvider]. *)
Inductive ProviderValue : Type :=
| OfCloudflare (p : CloudflareProvider)
| OfVercel (p : VercelProvider).

(** [NewProvider]; [Getenv] is [os.Getenv].  The result is the Go pair
    [(Provider, error)], [None] standing for nil. *)
Definition NewProvider (Getenv : string -> string) (cfg : Config)
  : option ProviderValue * option error :=
  if (cfgProvider cfg =? "cloudflare")%string then
    let token := cfgToken cfg in
    let token := if (token =? "")%string then Getenv "CF_API_TOKEN" else token in
    let zone := cfgZone cfg in
    let zone := if (zone =? "")%string then Getenv "CF_ZONE_ID" else zone in
    if (token =? "")%string then
      (None, Some (errorString
         "cloudflare: API token required (--dns-token or CF_API_TOKEN)"))
    else if (zone =? "")%string then
      (None, Some (errorString
         "cloudflare: zone ID required (--dns-zone or CF_ZONE_ID)"))
    else (Some (OfCloudflare (NewCloudflareProvider token zone)), None)
  else if (cfgProvider cfg =? "vercel")%string then
    let token := cfgToken cfg in
    let token := if (token =? "")%string then Getenv "VERCEL_TOKEN" else token in
    let teamID := cfgTeamID cfg in
    let teamID := if (teamID =? "")%string then Getenv "VERCEL_TEAM_ID" else teamID in
    let domain := cfgZone cfg in
    if (token =? "")%string then
      (None, Some (errorString
         "vercel: API token required (--dns-token or VERCEL_TOKEN)"))
    else if (domain =? "")%string then
      (None, Some (errorString "vercel: domain required (--dns-zone)"))
    else (Some (OfVercel (NewVercelProvider token domain teamID)), None)
  else
    (None, Some (errorString
       ("unknown DNS provider: " ++ cfgProvider cfg
        ++ " (supported: cloudflare, vercel)"))).

(** ** Upload (dns.go) *)

(** A method call made on the [provider] argument of [Upload]. *)
Inductive ProviderCall : Type :=
| CallDelete (subdomain : string) (ipv6 : bool)
| CallCreate (subdomain : string) (ips : list Addr).

(** State [Upload] runs over: the provider's own state, the calls made on
    the provider so far with their results, and what was written to
    [os.Stderr]. *)
Record UploadState (W : Type) : Type := mkUploadState {
  world : W;
  calls : list (ProviderCall * (error + unit));
  stderr : list string
}.

Section Upload.

Variable W : Type.
Variable provider : Provider W.

Definition runCall (c : ProviderCall) : M W unit :=
  match c with
  | CallDelete subdomain ipv6 => DeleteRecords provider subdomain ipv6
  | CallCreate subdomain ips => CreateRecords provider subdomain ips
  end.

(** A method call on [provider], recorded in [calls]. *)
Definition invoke (c : ProviderCall) : M (UploadState W) unit :=
  fun st =>
    let '(r, w') := runCall c (world st) in
    (r, mkUploadState w' (calls st ++ [(c, r)]) (stderr st)).

(** fmt.Fprintf(os.Stderr, ...) *)
Definition Fprintf_Stderr (line : string) : M (UploadState W) unit :=
  fun st => (inr tt, mkUploadState (world st) (calls st) (stderr st ++ [line])).

Definition when_ {St} (b : bool) (c : M St unit) : M St unit :=
  if b then c else ret tt.

Definition nl : string := String (ascii_of_nat 10) EmptyString.

Definition len {A} (l : list A) : Z := Z.of_nat (length l).

(** The loop that separates IPv4 from the other addresses. *)
Fixpoint separate (ips v4 v6 : list Addr) : list Addr * list Addr :=
  match ips with
  | [] => (v4, v6)
  | ip :: rest =>
      if Is4 ip then separate rest (v4 ++ [ip]) v6
      else separate rest v4 (v6 ++ [ip])
  end.

Definition Upload (subdomain : string) (ips : list Addr) (verbose : bool)
  : M (UploadState W) unit :=
  if len ips =? 0 then ret tt
  else
    let '(v4, v6) := separate ips [] [] in
    (if len v4 >? 0 then
       when_ verbose (Fprintf_Stderr
         ("dns: deleting existing A records for " ++ subdomain ++ "..." ++ nl)) ;;;
       orReturn (invoke (CallDelete subdomain false))
                (wrapError "delete A records: ") ;;;
       when_ verbose (Fprintf_Stderr
         ("dns: creating " ++ itoa (len v4) ++ " A records for "
          ++ subdomain ++ "..." ++ nl)) ;;;
       orReturn (invoke (CallCreate subdomain v4))
                (wrapError "create A records: ")
     else ret tt) ;;;
    (if len v6 >? 0 then
       when_ verbose (Fprintf_Stderr
         ("dns: deleting existing AAAA records for " ++ subdomain ++ "..." ++ nl)) ;;;
       orReturn (invoke (CallDelete subdomain true))
                (wrapError "delete AAAA records: ") ;;;
       when_ verbose (Fprintf_Stderr
         ("dns: creating " ++ itoa (len v6) ++ " AAAA records for "
          ++ subdomain ++ "..." ++ nl)) ;;;
       orReturn (invoke (CallCreate subdomain v6))
                (wrapError "create AAAA records: ")
     else ret tt) ;;;
    when_ verbose (Fprintf_Stderr
      ("dns: upload complete (" ++ itoa (len v4) ++ " A, "
       ++ itoa (len v6) ++ " AAAA records)" ++ nl)) ;;;
    ret tt.

End Upload.

(** ** Scoring (spec section 4.3) *)

Module Scoring.

Open Scope Q_scope.

Record ProbeOutcome : Type := mkProbeOutcome {
  ok : bool;
  http_status : Z;
  connect_ms : Q;
  tls_ms : Q;
  ttfb_ms : Q;
  total_ms : Q;
  trace_colo : option string
}.

Definition t_lo : Q := 20.
Definition t_hi : Q := 2000.

Definition clamp (x lo hi : Q) : Q :=
  if Qlt_le_dec x lo then lo
  else if Qlt_le_dec hi x then hi
  else x.

(** Modelled from the spec: the scoring function of the search core is not
    among the sources; this follows section 4.3 word for word, with
    milliseconds and rewards as exact rationals: reward 0 when [ok] is
    false, otherwise [(t_hi - t) / (t_hi - t_lo)] for the clamped latency
    [t], itself clamped to [0,1]. *)
Definition reward (o : ProbeOutcome) : Q :=
  if negb (ok o) then 0
  else
    let t := clamp (total_ms o) t_lo t_hi in
    clamp ((t_hi - t) / (t_hi - t_lo)) 0 1.

End Scoring.

(** ** Beta arms, beams and ingestion (spec sections 3, 4.1, 4.4, 4.5) *)

Module Search.

Import Scoring.
Open Scope Q_scope.

Record Prefix : Type := mkPrefix {
  v6 : bool;
  base : N;
  bits : N
}.

Definition width (p : Prefix) : N := if v6 p then 128%N else 32%N.

Record Config : Type := mkConfig {
  beam_capacity : nat;
  split_interval : nat;
  min_samples_split : nat;
  split_step_v4 : N;
  split_step_v6 : N;
  max_bits_v4 : N;
  max_bits_v6 : N
}.

Definition max_bits (cfg : Config) (p : Prefix) : N :=
  if v6 p then max_bits_v6 cfg else max_bits_v4 cfg.

Definition split_step (cfg : Config) (p : Prefix) : N :=
  if v6 p then split_step_v6 cfg else split_step_v4 cfg.

Definition leaf_eligible (cfg : Config) (p : Prefix) : bool :=
  (max_bits cfg p <=? bits p)%N.

(** Modelled from the spec: [split(prefix, step)] of section 4.1, the
    [2^step] children of width [bits + step], failing when
    [bits + step > max-bits]. *)
Definition split (cfg : Config) (p : Prefix) (step : N) : option (list Prefix) :=
  if (max_bits cfg p <? bits p + step)%N then None
  else
    Some (map (fun i =>
                 mkPrefix (v6 p)
                          (base p + N.of_nat i * 2 ^ (width p - bits p - step))%N
                          (bits p + step)%N)
              (seq 0 (N.to_nat (2 ^ step)))).

(** Modelled from the spec: the arm of section 3.  [sum_reward] is the sum
    of the rewards ingested for this arm and [n] their number, so the sum
    of [1 - reward] over them is [n - sum_reward]. *)
Record Arm : Type := mkArm {
  prefix : Prefix;
  alpha : Q;
  beta : Q;
  n : nat;
  sum_reward : Q;
  sum_latency : Q;
  successful_count : nat;
  birth : nat
}.

Definition sum_one_minus_reward (a : Arm) : Q :=
  inject_Z (Z.of_nat (n a)) - sum_reward a.

(** An arm nothing has been ingested for, with the given Beta parameters. *)
Definition new_arm (p : Prefix) (a0 b0 : Q) (seqno : nat) : Arm :=
  mkArm p a0 b0 0 0 0 0 seqno.

(** Modelled from the spec: the Beta update of section 4.4. *)
Definition update (o : ProbeOutcome) (a : Arm) : Arm :=
  let r := reward o in
  mkArm (prefix a)
        (alpha a + r)
        (beta a + (1 - r))
        (Datatypes.S (n a))
        (sum_reward a + r)
        (if ok o then sum_latency a + total_ms o else sum_latency a)
        (if ok o then Datatypes.S (successful_count a) else successful_count a)
        (birth a).

Definition mean (a : Arm) : Q := alpha a / (alpha a + beta a).

Definition kappa : Q := 1 # 2.

(** Modelled from the spec: the scaled-down prior a child inherits on a
    split (section 4.5, step 4c). *)
Definition child_prior (parent_param : Q) (fanout : Q) : Q :=
  1 + kappa * (parent_param - 1) / fanout.

Fixpoint children_arms (parent : Arm) (fanout : Q) (ps : list Prefix)
         (seqno : nat) : list Arm :=
  match ps with
  | [] => []
  | p :: ps' =>
      new_arm p (child_prior (alpha parent) fanout)
                (child_prior (beta parent) fanout) seqno
      :: children_arms parent fanout ps' (Datatypes.S seqno)
  end.

(** Eviction order: smaller mean first, older birth on a tie. *)
Definition evicted_before (a b : Arm) : bool :=
  if Qlt_le_dec (mean a) (mean b) then true
  else if Qlt_le_dec (mean b) (mean a) then false
  else (birth a <? birth b)%nat.

Fixpoint first_evicted (a : Arm) (l : list Arm) : Arm :=
  match l with
  | [] => a
  | b :: l' => first_evicted (if evicted_before b a then b else a) l'
  end.

Fixpoint remove_birth (seqno : nat) (l : list Arm) : list Arm :=
  match l with
  | [] => []
  | a :: l' => if (birth a =? seqno)%nat then l' else a :: remove_birth seqno l'
  end.

Definition evict_one (beam : list Arm) : list Arm :=
  match beam with
  | [] => []
  | a :: l => remove_birth (birth (first_evicted a l)) beam
  end.

(** Modelled from the spec: eviction under beam overflow, until the beam
    has [capacity] arms. *)
Definition evict (capacity : nat) (beam : list Arm) : list Arm :=
  Nat.iter (length beam - capacity) evict_one beam.

(** Modelled from the spec: splitting arm [a] of a beam: the parent is
    removed and the children are inserted with fresh birth numbers; the
    second component is the birth counter afterwards. *)
Definition split_arm (cfg : Config) (a : Arm) (next_birth : nat)
           (beam : list Arm) : option (list Arm * nat) :=
  match split cfg (prefix a) (split_step cfg (prefix a)) with
  | None => None
  | Some ps =>
      let fanout := inject_Z (Z.of_nat (length ps)) in
      Some ((remove_birth (birth a) beam
             ++ children_arms a fanout ps next_birth)%list,
            (next_birth + length ps)%nat)
  end.

Record Head : Type := mkHead {
  beam : list Arm;
  expanded : list Prefix
}.

Record Engine : Type := mkEngine {
  heads : list Head;
  next_birth : nat
}.

Fixpoint seed_arms (roots : list Prefix) (seqno : nat) : list Arm :=
  match roots with
  | [] => []
  | p :: roots' => new_arm p 1 1 seqno :: seed_arms roots' (Datatypes.S seqno)
  end.

Fixpoint seed_heads (k : nat) (roots : list Prefix) (seqno : nat) : list Head :=
  match k with
  | O => []
  | Datatypes.S k' =>
      mkHead (seed_arms roots seqno) []
      :: seed_heads k' roots (seqno + length roots)
  end.

(** Modelled from the spec: initialization, every head seeded with the
    root prefixes under the prior (1,1). *)
Definition init (nheads : nat) (roots : list Prefix) : Engine :=
  mkEngine (seed_heads nheads roots 0) (nheads * length roots).

Section Ingestion.

Variable cfg : Config.
(** The split threshold of a head (the spec pins it to a running median
    of the arm means and lets implementations choose). *)
Variable split_threshold : Head -> Q.

Definition find_arm (seqno : nat) (l : list Arm) : option Arm :=
  find (fun a => (birth a =? seqno)%nat) l.

Definition split_check (h : Head) (a : Arm) : bool :=
  (Nat.modulo (n a) (split_interval cfg) =? 0)%nat
  && (min_samples_split cfg <=? n a)%nat
  && (if Qlt_le_dec (mean a) (split_threshold h) then false else true)
  && negb (leaf_eligible cfg (prefix a)).

(** Modelled from the spec: result ingestion for one head (section 4.5,
    step 4): Beta update of the arm, then the split check, the split and
    the eviction. *)
Definition ingest_head (seqno : nat) (o : ProbeOutcome) (next : nat) (h : Head)
  : Head * nat :=
  let updated :=
    map (fun a => if (birth a =? seqno)%nat then update o a else a) (beam h) in
  let h1 := mkHead updated (expanded h) in
  match find_arm seqno updated with
  | None => (h1, next)
  | Some a =>
      if split_check h1 a then
        match split_arm cfg a next updated with
        | None => (h1, next)
        | Some (beam', next') =>
            (mkHead (evict (beam_capacity cfg) beam') (prefix a :: expanded h),
             next')
        end
      else (h1, next)
  end.

Fixpoint ingest_heads (hi seqno : nat) (o : ProbeOutcome) (next : nat)
         (hs : list Head) {struct hs} : list Head * nat :=
  match hs with
  | [] => ([], next)
  | h :: hs' =>
      match hi with
      | O => let '(h', next') := ingest_head seqno o next h in (h' :: hs', next')
      | Datatypes.S hi' =>
          let '(hs'', next') := ingest_heads hi' seqno o next hs' in
          (h :: hs'', next')
      end
  end.

(** Ingestion of the outcome [o] of a probe for the arm with birth number
    [seqno] of head [hi]. *)
Definition ingest (hi seqno : nat) (o : ProbeOutcome) (e : Engine) : Engine :=
  let '(hs, next) := ingest_heads hi seqno o (next_birth e) (heads e) in
  mkEngine hs next.

(** The engine states reached by ingestions from an initial state. *)
Inductive reachable (nheads : nat) (roots : list Prefix) : Engine -> Prop :=
| reach_init : reachable nheads roots (init nheads roots)
| reach_ingest e hi seqno o :
    reachable nheads roots e ->
    reachable nheads roots (ingest hi seqno o e).

End Ingestion.

(** The invariant as stated for an arm. *)
Definition arm_invariant (a : Arm) : Prop :=
  1 <= alpha a /\ 1 <= beta a /\
  alpha a == 1 + sum_reward a /\
  beta a == 1 + sum_one_minus_reward a.

(** What holds of an arm with split ancestors. *)
Definition arm_bounds (a : Arm) : Prop :=
  1 <= alpha a /\ 1 <= beta a /\
  1 + sum_reward a <= alpha a /\
  1 + sum_one_minus_reward a <= beta a.

Definition all_arms (P : Arm -> Prop) (e : Engine) : Prop :=
  Forall (fun h => Forall P (beam h)) (heads e).

End Search.

(** * Vocabulary of the properties *)

(** ** Provider calls of Upload *)

Section UploadCalls.

Variable W : Type.
Variable provider : Provider W.

(** The provider calls [Upload] is about to make for an address list, in
    order: the IPv4 pair first, then the pair for the other addresses. *)
Definition planned_calls (subdomain : string) (ips : list Addr)
  : list ProviderCall :=
  let v4 := filter Is4 ips in
  let v6 := filter (fun ip => negb (Is4 ip)) ips in
  ((match v4 with
    | [] => []
    | _ :: _ => [CallDelete subdomain false; CallCreate subdomain v4]
    end)
   ++
   (match v6 with
    | [] => []
    | _ :: _ => [CallDelete subdomain true; CallCreate subdomain v6]
    end))%list.

(** Running a list of calls on the provider up to the first one that
    returns an error, with the result of each. *)
Fixpoint perform (cs : list ProviderCall) (w : W)
  : list (ProviderCall * (error + unit)) :=
  match cs with
  | [] => []
  | c :: cs' =>
      match runCall provider c w with
      | (inl e, _) => [(c, inl e)]
      | (inr u, w') => (c, inr u) :: perform cs' w'
      end
  end.

(** A recorded call that returned nil. *)
Definition succeeded (entry : ProviderCall * (error + unit)) : Prop :=
  snd entry = inr tt.

(** The error [Upload] returns for a failed call: the provider's error
    under the prefix of the step. *)
Definition upload_outcome (tr : list (ProviderCall * (error + unit)))
           (r : error + unit) : Prop :=
  match r with
  | inr _ => Forall succeeded tr
  | inl err =>
      exists pre c e prefix,
        tr = (pre ++ [(c, inl e)])%list /\ err = wrapError prefix e
  end.

End UploadCalls.

(** ** Requests, response handling and API failures *)

Section Exchanges.

Variable S : Type.
Variable serve : S -> Request -> S * DoResult.
Variable lib : GoLib.

Local Abbreviation State := (State S).

(** One request and the handling of its response: the shape of every
    low-level call of both clients.  Nothing is sent when the request
    cannot be built. *)
Definition roundTrip {P A} (mk : error + Request)
           (handle : Response -> error + A) (st : State P)
  : (error + A) * State P :=
  match mk with
  | inl e => (inl e, st)
  | inr req =>
      let '(s', r) := serve (srv (net st)) req in
      (match r with inl e => inl e | inr resp => handle resp end,
       mkState (self st) (mkNet s' (sent (net st) ++ [(req, r)])))
  end.

(** The URLs and headers of the requests. *)
Definition Vercel_listURL (p : VercelProvider) : string :=
  Vercel_buildURL lib p
    ("/v4/domains/" ++ url_PathEscape lib (vc_domain p) ++ "/records").

Definition Vercel_deleteURL (p : VercelProvider) (recordID : string) : string :=
  Vercel_buildURL lib p
    ("/v2/domains/" ++ url_PathEscape lib (vc_domain p)
     ++ "/records/" ++ url_PathEscape lib recordID).

Definition Vercel_createURL (p : VercelProvider) : string :=
  Vercel_buildURL lib p
    ("/v2/domains/" ++ url_PathEscape lib (vc_domain p) ++ "/records").

Definition Vercel_headers (p : VercelProvider) : list (string * string) :=
  [("Authorization", "Bearer " ++ vc_token p);
   ("Content-Type", "application/json")].

Definition Cloudflare_zoneURL (p : CloudflareProvider) : string :=
  cloudflareAPIBase ++ "/zones/" ++ cf_zoneID p.

Definition Cloudflare_listURL (p : CloudflareProvider) (name recordType : string)
  : string :=
  cloudflareAPIBase ++ "/zones/" ++ cf_zoneID p
  ++ "/dns_records?type=" ++ recordType ++ "&name=" ++ name.

Definition Cloudflare_deleteURL (p : CloudflareProvider) (recordID : string)
  : string :=
  cloudflareAPIBase ++ "/zones/" ++ cf_zoneID p ++ "/dns_records/" ++ recordID.

Definition Cloudflare_createURL (p : CloudflareProvider) : string :=
  cloudflareAPIBase ++ "/zones/" ++ cf_zoneID p ++ "/dns_records".

Definition Cloudflare_headers (p : CloudflareProvider) : list (string * string) :=
  [("Authorization", "Bearer " ++ cf_token p);
   ("Content-Type", "application/json")].

(** The record-creation request of each client for one record. *)
Definition Vercel_createRequest (p : VercelProvider)
           (name recordType value : string) : Request :=
  mkRequest MethodPost (Vercel_createURL p) (Vercel_headers p)
            (Some (Vercel_createPayload name recordType value)).

Definition Cloudflare_createRequest (p : CloudflareProvider)
           (name recordType content : string) : Request :=
  mkRequest MethodPost (Cloudflare_createURL p) (Cloudflare_headers p)
            (Some (Cloudflare_createPayload name recordType content)).

(** The record-deletion request of each client for a record id. *)
Definition Vercel_deleteRequest (p : VercelProvider) (recordID : string)
  : Request :=
  mkRequest MethodDelete (Vercel_deleteURL p recordID) (Vercel_headers p) None.

Definition Cloudflare_deleteRequest (p : CloudflareProvider) (recordID : string)
  : Request :=
  mkRequest MethodDelete (Cloudflare_deleteURL p recordID)
            (Cloudflare_headers p) None.

(** How each client reads the response of each of its calls. *)
Definition Vercel_handleList (resp : Response) : error + list vercelDNSRecord :=
  match snd (Body resp) with
  | Some e => inl e
  | None =>
      if StatusCode resp >=? 400 then
        inl (vercelAPIError lib (StatusCode resp) (fst (Body resp)))
      else
        match Unmarshal_vercelList lib (fst (Body resp)) with
        | inl e => inl (wrapError "parse response: " e)
        | inr result => inr (vcRecords result)
        end
  end.

Definition Vercel_handleStatus (resp : Response) : error + unit :=
  if StatusCode resp >=? 400 then
    inl (vercelAPIError lib (StatusCode resp) (fst (Body resp)))
  else inr tt.

Definition Cloudflare_handle {R A} (unmarshal : string -> error + R)
           (success : R -> bool) (errors : R -> list cfError)
           (result : R -> A) (resp : Response) : error + A :=
  match snd (Body resp) with
  | Some e => inl e
  | None =>
      match unmarshal (fst (Body resp)) with
      | inl e => inl (wrapError "parse response: " e)
      | inr r =>
          if negb (success r) then inl (cloudflareAPIError (errors r))
          else inr (result r)
      end
  end.

(** The type of record both clients create for an address. *)
Definition createdType (ip : Addr) : string := recordTypeOf (Is6 ip).

(** The records [Vercel_DeleteRecords] deletes among those listed. *)
Definition Vercel_matching (recordType subdomain : string)
           (records : list vercelDNSRecord) : list vercelDNSRecord :=
  filter (fun rec => (vcType rec =? recordType)%string
                     && (vcName rec =? subdomain)%string) records.

(** buildFQDN, when it succeeds: the name it builds, and the provider's
    token and zone id are kept. *)
Definition fqdnOf (subdomain zoneName : string) : string :=
  if (subdomain =? "")%string || (subdomain =? "@")%string then zoneName
  else subdomain ++ "." ++ zoneName.

(** The request log of a provider state. *)
Definition netLog {P} (st : State P) : list Exchange := sent (net st).

(** Vercel: a response with an HTTP status of 400 or more. *)
Definition vercelFailed (ex : Exchange) : Prop :=
  match snd ex with
  | inr resp => 400 <= StatusCode resp
  | inl _ => False
  end.

(** The error the Vercel client makes of such a response: the API error,
    or for the listing call the error of reading the body when there is
    one. *)
Definition vercelErrorOf (ex : Exchange) : error :=
  match snd ex with
  | inl e => e
  | inr resp =>
      match ReqMethod (fst ex), snd (Body resp) with
      | MethodGet, Some e => e
      | _, _ => vercelAPIError lib (StatusCode resp) (fst (Body resp))
      end
  end.

(** Cloudflare: what the API response of an exchange says, decoded at the
    type of the call that was made: success flag and errors.  [None]
    when there is no response, the body cannot be read or decoded. *)
Definition cfVerdict (zoneID : string) (ex : Exchange)
  : option (bool * list cfError) :=
  match snd ex with
  | inl _ => None
  | inr resp =>
      match snd (Body resp) with
      | Some _ => None
      | None =>
          let body := fst (Body resp) in
          match ReqMethod (fst ex) with
          | MethodPost =>
              match Unmarshal_cfCreate lib body with
              | inr r => Some (cfCreateSuccess r, cfCreateErrors r)
              | inl _ => None
              end
          | MethodDelete =>
              match Unmarshal_cfDelete lib body with
              | inr r => Some (cfDeleteSuccess r, cfDeleteErrors r)
              | inl _ => None
              end
          | MethodGet =>
              if (ReqURL (fst ex) =? cloudflareAPIBase ++ "/zones/" ++ zoneID)%string
              then
                match Unmarshal_cfZone lib body with
                | inr r => Some (cfZoneSuccess r, cfZoneErrors r)
                | inl _ => None
                end
              else
                match Unmarshal_cfList lib body with
                | inr r => Some (cfListSuccess r, cfListErrors r)
                | inl _ => None
                end
          end
      end
  end.

(** Cloudflare: an API response with [success] false. *)
Definition cloudflareFailed (zoneID : string) (ex : Exchange) : Prop :=
  exists errors, cfVerdict zoneID ex = Some (false, errors).

Definition cloudflareErrorOf (zoneID : string) (ex : Exchange) : error :=
  match cfVerdict zoneID ex with
  | Some (_, errors) => cloudflareAPIError errors
  | None => errorString ""
  end.

(** A round trip, then storing something in the provider struct. *)
Definition roundTripThen {P A} (mk : P -> error + Request)
           (handle : Response -> error + A) (upd : P -> A -> P)
  : M (State P) A :=
  fun st =>
    match roundTrip (mk (self st)) handle st with
    | (inl e, st') => (inl e, st')
    | (inr a, st') => (inr a, mkState (upd (self st) a) (net st'))
    end.

End Exchanges.

(** The string stored under a key of a payload. *)
Definition payloadString (key : string) (payload : Payload) : option string :=
  match find (fun kv => (fst kv =? key)%string) payload with
  | Some (_, JString s) => Some s
  | _ => None
  end.

(** The records created by the POST requests of a log, as (type, value)
    pairs; [valueKey] is the payload key of the value: "value" for
    Vercel and "content" for Cloudflare. *)
Definition createdRecords (valueKey : string) (exs : list Exchange)
  : list (string * string) :=
  flat_map
    (fun ex : Exchange =>
       match ReqMethod (fst ex), ReqBody (fst ex) with
       | MethodPost, Some payload =>
           match payloadString "type" payload, payloadString valueKey payload with
           | Some recordType, Some value => [(recordType, value)]
           | _, _ => []
           end
       | _, _ => []
       end) exs.

(** The HTTP status of the response of an exchange. *)
Definition statusOf (ex : Exchange) : option Z :=
  match snd ex with
  | inr resp => Some (StatusCode resp)
  | inl _ => None
  end.

(** A flag value, or the environment variable when the flag is empty. *)
Definition orEnv (flag env : string) : string :=
  if (flag =? "")%string then env else flag.

(** ** Runs that end at the first API failure *)

Section FinalFailureDef.

(** A computation over a state with a request log [logOf], under a state
    invariant [Inv].  [failed] picks the exchanges that count as an API
    failure and [apiError] is the error the client makes of one. *)
Variable St : Type.
Variable logOf : St -> list Exchange.
Variable Inv : St -> Prop.
Variable failed : Exchange -> Prop.
Variable apiError : Exchange -> error.

(** Whenever an exchange of the run is an API failure, it is the last
    exchange of the run, and the run returns an error that wraps the
    client's error for it. *)
Definition final_failure {A} (c : M St A) : Prop :=
  forall st, Inv st ->
    Inv (snd (c st)) /\
    exists exs,
      logOf (snd (c st)) = (logOf st ++ exs)%list /\
      forall pre ex post,
        exs = (pre ++ ex :: post)%list -> failed ex ->
        post = [] /\
        exists e, fst (c st) = inl e /\ Wraps e (apiError ex).

End FinalFailureDef.

Section UploadLog.

Variable W : Type.
Variable lg : W -> list Exchange.
Variable Inv : W -> Prop.

(** The request log as seen from [Upload]. *)
Definition uploadLog (st : UploadState W) : list Exchange := lg (world st).

(** A provider-state invariant as seen from [Upload]. *)
Definition uploadInv (st : UploadState W) : Prop := Inv (world st).

End UploadLog.

(** ** Concrete servers and providers used in the examples *)

Module Fixture.

Definition byteOf (v : N) (shift : N) : Z :=
  Z.of_N (N.land (N.shiftr v shift) 255).

(** Text form of the addresses used below: dotted quad for IPv4,
    "invalid IP" for the zero Addr, and the two IPv6 addresses spelled
    out. *)
Definition addrString (ip : Addr) : string :=
  match ip with
  | AddrZero => "invalid IP"
  | Addr4 v =>
      itoa (byteOf v 24) ++ "." ++ itoa (byteOf v 16) ++ "."
      ++ itoa (byteOf v 8) ++ "." ++ itoa (byteOf v 0)
  | Addr6 hi lo _ =>
      if (lo =? 1)%N then "2001:db8::1" else "2001:db8::2"
  end.

Definition ip4a : Addr := Addr4 3221225985.
Definition ip6a : Addr := Addr6 2306139568115548160 1 "".

Definition recA : cfDNSRecord :=
  mkCfDNSRecord "rec1" "A" "cf.example.com" "192.0.2.7" 1 false.
Definition recB : cfDNSRecord :=
  mkCfDNSRecord "rec2" "A" "cf.example.com" "192.0.2.8" 1 false.

Definition vrecA : vercelDNSRecord := mkVercelDNSRecord "v1" "A" "cf" "192.0.2.7" 60.
Definition vrecTXT : vercelDNSRecord := mkVercelDNSRecord "v2" "TXT" "cf" "hello" 60.
Definition vrecOther : vercelDNSRecord := mkVercelDNSRecord "v3" "A" "www" "192.0.2.9" 60.
Definition vrecA2 : vercelDNSRecord := mkVercelDNSRecord "v4" "A" "cf" "192.0.2.8" 60.

Definition syntaxError : error := errorString "invalid character".

(** Response bodies are named rather than spelled out; each decoder
    knows the bodies of its own call. *)
Definition lib : GoLib :=
  mkGoLib
    addrString
    (fun s => s)
    (fun s => s)
    (fun _ => None)
    (fun body =>
       if (body =? "zone")%string then inr (mkCfZoneResponse true [] "example.com")
       else if (body =? "zone-unnamed")%string then inr (mkCfZoneResponse true [] "")
       else if (body =? "denied")%string then
         inr (mkCfZoneResponse false [mkCfError 10000 "Authentication error"] "")
       else inl syntaxError)
    (fun body =>
       if (body =? "list")%string then inr (mkCfListResponse true [] [recA; recB])
       else if (body =? "denied")%string then
         inr (mkCfListResponse false [mkCfError 10000 "Authentication error"] [])
       else inl syntaxError)
    (fun body =>
       if (body =? "created")%string then inr (mkCfCreateResponse true [] recA)
       else if (body =? "denied")%string then
         inr (mkCfCreateResponse false [mkCfError 10000 "Authentication error"] recA)
       else inl syntaxError)
    (fun body =>
       if (body =? "deleted")%string then inr (mkCfDeleteResponse true [])
       else if (body =? "denied")%string then
         inr (mkCfDeleteResponse false [mkCfError 10000 "Authentication error"])
       else inl syntaxError)
    (fun body =>
       if (body =? "records")%string then
         inr (mkVercelListResponse [vrecA; vrecTXT; vrecOther; vrecA2] 4 "" "")
       else inl syntaxError)
    (fun body =>
       if (body =? "forbidden")%string then
         inr (mkVercelErrorResponse "forbidden" "Not authorized")
       else inl syntaxError).

Definition respond (status : Z) (body : string) : DoResult :=
  inr (mkResponse status (body, None)).

Definition cfZoneURL : string := cloudflareAPIBase ++ "/zones/" ++ "zone123".

(** A Cloudflare API that answers every call successfully, with the given
    HTTP status.  The server state counts the requests served. *)
Definition cloudflareServer (status : Z) (n : nat) (req : Request)
  : nat * DoResult :=
  (Datatypes.S n,
   match ReqMethod req with
   | MethodGet =>
       if (ReqURL req =? cfZoneURL)%string then respond status "zone"
       else respond status "list"
   | MethodDelete => respond status "deleted"
   | MethodPost => respond status "created"
   end).

(** A Cloudflare API whose zone lookup is refused. *)
Definition cloudflareDenied (n : nat) (req : Request) : nat * DoResult :=
  (Datatypes.S n, respond 403 "denied").

(** A Cloudflare API whose first zone lookup succeeds without a name and
    whose later ones carry it. *)
Definition cloudflareUnnamedFirst (n : nat) (req : Request) : nat * DoResult :=
  (Datatypes.S n,
   match n with
   | O => respond 200 "zone-unnamed"
   | _ => respond 200 "zone"
   end).

(** A Vercel API that answers every call successfully. *)
Definition vercelServer (n : nat) (req : Request) : nat * DoResult :=
  (Datatypes.S n,
   match ReqMethod req with
   | MethodGet => respond 200 "records"
   | _ => respond 200 ""
   end).

(** A Vercel API that lists records and refuses every change. *)
Definition vercelReadOnly (n : nat) (req : Request) : nat * DoResult :=
  (Datatypes.S n,
   match ReqMethod req with
   | MethodGet => respond 200 "records"
   | _ => respond 403 "forbidden"
   end).

Definition cfProvider : CloudflareProvider := NewCloudflareProvider "tok" "zone123".
Definition vcProvider : VercelProvider := NewVercelProvider "tok" "example.com" "".

Definition cfStart : State nat CloudflareProvider :=
  mkState cfProvider (mkNet 0%nat []).
Definition vcStart : State nat VercelProvider :=
  mkState vcProvider (mkNet 0%nat []).

Definition start {W} (w : W) : UploadState W := mkUploadState w [] [].

(** A provider that cannot delete A records. *)
Definition brokenA : Provider unit :=
  mkProvider "broken"
    (fun _ ipv6 w => if ipv6 then (inr tt, w) else (inl (errorString "boom"), w))
    (fun _ _ w => (inr tt, w)).

End Fixture.

Module SearchFixture.

Import Scoring Search.

(** One head, one IPv4 root 10.0.0.0/16, a split check at every
    ingestion, splits by one bit. *)
Definition cfg : Config := Search.mkConfig 8 1 1 1 4 24 56.
Definition root : Prefix := mkPrefix false 167772160 16.
Definition threshold (h : Head) : Q := 0.

(** A probe that succeeded in 20 ms: reward 1. *)
Definition fast : ProbeOutcome :=
  mkProbeOutcome true 200 (5 # 1) (5 # 1) (10 # 1) (20 # 1) None.

Definition afterOne : Engine := ingest cfg threshold 0 0 fast (init 1 [root]).

End SearchFixture.

(** ** Further vocabulary: what a run hands over and what it sends *)

(** The addresses a recorded provider call asked to create records for. *)
Definition createdAddrs (entry : ProviderCall * (error + unit)) : list Addr :=
  match fst entry with
  | CallCreate _ ips => ips
  | CallDelete _ _ => []
  end.

(** The prefix [Upload] puts before the error of a provider call: the
    four [fmt.Errorf] formats of its two blocks.  The CreateRecords call
    of the first block is the one whose addresses are all IPv4. *)
Definition uploadPrefix (c : ProviderCall) : string :=
  match c with
  | CallDelete _ ipv6 => "delete " ++ recordTypeOf ipv6 ++ " records: "
  | CallCreate _ ips =>
      "create " ++ recordTypeOf (negb (forallb Is4 ips)) ++ " records: "
  end.

(** The [Name()] method of the value [NewProvider] returns. *)
Definition ProviderValue_Name (v : ProviderValue) : string :=
  match v with
  | OfCloudflare _ => Cloudflare_Name
  | OfVercel _ => Vercel_Name
  end.

(** The listing request of each client and the zone lookup. *)
Definition Vercel_listRequest (lib : GoLib) (p : VercelProvider) : Request :=
  mkRequest MethodGet (Vercel_listURL lib p) (Vercel_headers p) None.

Definition Cloudflare_listRequest (p : CloudflareProvider)
           (name recordType : string) : Request :=
  mkRequest MethodGet (Cloudflare_listURL p name recordType)
            (Cloudflare_headers p) None.

Definition Cloudflare_zoneRequest (p : CloudflareProvider) : Request :=
  mkRequest MethodGet (Cloudflare_zoneURL p) (Cloudflare_headers p) None.

Section SendsOnly.

Variable St : Type.
Variable logOf : St -> list Exchange.
Variable Inv : St -> Prop.
Variable allowed : Exchange -> Prop.

(** From a state where [Inv] holds, the run keeps [Inv] and every
    exchange it adds to the log is [allowed], whatever it returns. *)
Definition sends_only {A} (c : M St A) : Prop :=
  forall st, Inv st ->
    Inv (snd (c st)) /\
    exists exs,
      logOf (snd (c st)) = (logOf st ++ exs)%list /\ Forall allowed exs.

End SendsOnly.

(** A request of the Vercel client for provider [p]: it carries the
    provider's token and goes to the Vercel API. *)
Definition vercelRequestOf (p : VercelProvider) (ex : Exchange) : Prop :=
  ReqHeader (fst ex)
  = [("Authorization", "Bearer " ++ vc_token p);
     ("Content-Type", "application/json")] /\
  String.prefix (vercelAPIBase ++ "/") (ReqURL (fst ex)) = true.

(** A request of the Cloudflare client with the given token for the
    given zone: it carries the token and goes to that zone of the
    Cloudflare API. *)
Definition cloudflareRequestOf (token zoneID : string) (ex : Exchange) : Prop :=
  ReqHeader (fst ex)
  = [("Authorization", "Bearer " ++ token);
     ("Content-Type", "application/json")] /\
  String.prefix (cloudflareAPIBase ++ "/zones/" ++ zoneID) (ReqURL (fst ex))
  = true.

(** The requests of one block of [Upload] through the Vercel provider,
    for the addresses [ips] of one family when [records] is what the
    listing returned: nothing for no address; otherwise the listing, the
    deletion of the listed records of the type and name, and one
    creation per address. *)
Definition vercelBlock (lib : GoLib) (p : VercelProvider) (subdomain : string)
           (ipv6 : bool) (records : list vercelDNSRecord) (ips : list Addr)
  : list Request :=
  match ips with
  | [] => []
  | _ :: _ =>
      (Vercel_listRequest lib p
       :: map (fun rec => Vercel_deleteRequest lib p (vcID rec))
              (Vercel_matching (recordTypeOf ipv6) subdomain records)
       ++ map (fun ip => Vercel_createRequest lib p subdomain
                           (createdType ip) (Addr_String lib ip)) ips)%list
  end.

(** * Properties *)

(** ** Upload: the calls it makes on the provider *)

Section UploadTrace.

Variable W : Type.
Variable provider : Provider W.

Lemma separate_filter : forall ips v4 v6,
  separate ips v4 v6 =
  ((v4 ++ filter Is4 ips)%list,
   (v6 ++ filter (fun ip => negb (Is4 ip)) ips)%list).
Proof.
  induction ips as [|ip rest IH]; intros v4 v6; simpl.
  - now rewrite !app_nil_r.
  - destruct (Is4 ip); simpl; rewrite IH, <- app_assoc; reflexivity.
Qed.

Lemma len_pos : forall A (l : list A),
  (len l >? 0) = match l with [] => false | _ :: _ => true end.
Proof.
  intros A [|a l]; reflexivity.
Qed.

Lemma len_zero : forall A (l : list A),
  (len l =? 0) = match l with [] => true | _ :: _ => false end.
Proof.
  intros A [|a l]; reflexivity.
Qed.

(** Only the last call of a run can have failed. *)
Lemma perform_failure_last : forall cs w pre c e post,
  perform provider cs w = (pre ++ (c, inl e) :: post)%list ->
  post = [] /\ Forall succeeded pre.
Proof.
  induction cs as [|c0 cs IH]; intros w pre c e post H; simpl in H.
  - destruct pre; discriminate.
  - destruct (runCall provider c0 w) as [[e0|u] w'] eqn:R.
    + destruct pre as [|x pre]; simpl in H.
      * inversion H; subst. split; [reflexivity | constructor].
      * inversion H. destruct pre; discriminate.
    + destruct pre as [|x pre]; simpl in H.
      * inversion H.
      * inversion H; subst.
        destruct (IH _ _ _ _ _ H2) as [Hp Hs]. split; [exact Hp|].
        constructor; [destruct u; reflexivity | exact Hs].
Qed.

Lemma Upload_run : forall subdomain ips verbose st,
  let tr := perform provider (planned_calls subdomain ips) (world st) in
  let out := Upload provider subdomain ips verbose st in
  calls (snd out) = (calls st ++ tr)%list /\ upload_outcome tr (fst out).
Proof.
  intros subdomain ips verbose st. cbv zeta.
  unfold Upload, planned_calls.
  rewrite len_zero, separate_filter. simpl app.
  destruct ips as [|ip0 ips0].
  { simpl. rewrite app_nil_r. split; [reflexivity | constructor]. }
  set (ips := ip0 :: ips0).
  set (v4 := filter Is4 ips). set (v6 := filter (fun ip => negb (Is4 ip)) ips).
  rewrite !len_pos.
  unfold bind, orReturn, invoke, when_, Fprintf_Stderr, ret, succeeded.
  destruct st as [w cs err]. simpl world; simpl calls; simpl stderr.
  destruct v4 as [|a4 v4']; destruct v6 as [|a6 v6']; destruct verbose;
    cbn [perform runCall world calls stderr fst snd app];
    repeat match goal with
    | |- context [DeleteRecords provider ?s ?b ?w0] =>
        destruct (DeleteRecords provider s b w0) as [[?e|[]] ?w];
        cbn [perform runCall world calls stderr fst snd app]
    | |- context [CreateRecords provider ?s ?l ?w0] =>
        destruct (CreateRecords provider s l w0) as [[?e|[]] ?w];
        cbn [perform runCall world calls stderr fst snd app]
    end;
    rewrite <- ?app_assoc, ?app_nil_r; cbn [app];
    (split; [reflexivity|]);
    try (repeat constructor);
    try (eexists [], _, _, _; split; reflexivity);
    try (eexists [_], _, _, _; split; reflexivity);
    try (eexists [_; _], _, _, _; split; reflexivity);
    try (eexists [_; _; _], _, _, _; split; reflexivity).
Qed.

End UploadTrace.

(** ** The requests the two clients send *)

Section Requests.

Variable S : Type.
Variable serve : S -> Request -> S * DoResult.
Variable lib : GoLib.

Local Abbreviation Net := (Net S).
Local Abbreviation State := (State S).

Lemma Vercel_request_inv : forall p method url body req,
  Vercel_request lib p method url body = inr req ->
  req = mkRequest method url (Vercel_headers p) body.
Proof.
  unfold Vercel_request, NewRequestWithContext. intros p method url body req H.
  destruct (url_Parse_err lib url); [discriminate|].
  inversion H. reflexivity.
Qed.

Lemma Cloudflare_request_inv : forall p method url body req,
  Cloudflare_request lib p method url body = inr req ->
  req = mkRequest method url (Cloudflare_headers p) body.
Proof.
  unfold Cloudflare_request, NewRequestWithContext. intros p method url body req H.
  destruct (url_Parse_err lib url); [discriminate|].
  inversion H. reflexivity.
Qed.

Lemma Vercel_listRecords_eq : forall st,
  Vercel_listRecords serve lib st =
  roundTrip serve (Vercel_request lib (self st) MethodGet (Vercel_listURL lib (self st)) None)
            (Vercel_handleList lib) st.
Proof.
  intros st. unfold Vercel_listRecords, roundTrip, bind, getSelf, liftE,
    client_Do, ReadAll, Vercel_handleList, orReturn, Vercel_listURL.
  destruct (Vercel_request _ _ _ _ _) as [e|req]; [reflexivity|].
  unfold ret, fail.
  destruct (serve _ _) as [s' [e|resp]]; [reflexivity|].
  destruct (snd (Body resp)); [reflexivity|].
  destruct (StatusCode resp >=? 400); [reflexivity|].
  destruct (Unmarshal_vercelList _ _); reflexivity.
Qed.

Lemma Vercel_deleteRecord_eq : forall recordID st,
  Vercel_deleteRecord serve lib recordID st =
  roundTrip serve (Vercel_request lib (self st) MethodDelete
               (Vercel_deleteURL lib (self st) recordID) None)
            (Vercel_handleStatus lib) st.
Proof.
  intros recordID st. unfold Vercel_deleteRecord, roundTrip, bind, getSelf,
    liftE, client_Do, ReadAll_, Vercel_handleStatus, Vercel_deleteURL.
  destruct (Vercel_request _ _ _ _ _) as [e|req]; [reflexivity|].
  unfold ret, fail.
  destruct (serve _ _) as [s' [e|resp]]; [reflexivity|].
  destruct (StatusCode resp >=? 400); reflexivity.
Qed.

Lemma Vercel_createRecord_eq : forall name recordType value st,
  Vercel_createRecord serve lib name recordType value st =
  roundTrip serve (Vercel_request lib (self st) MethodPost
               (Vercel_createURL lib (self st))
               (Some (Vercel_createPayload name recordType value)))
            (Vercel_handleStatus lib) st.
Proof.
  intros name recordType value st. unfold Vercel_createRecord, roundTrip, bind,
    getSelf, liftE, client_Do, ReadAll_, Vercel_handleStatus, Vercel_createURL.
  destruct (Vercel_request _ _ _ _ _) as [e|req]; [reflexivity|].
  unfold ret, fail.
  destruct (serve _ _) as [s' [e|resp]]; [reflexivity|].
  destruct (StatusCode resp >=? 400); reflexivity.
Qed.

Lemma Cloudflare_listRecords_eq : forall name recordType st,
  Cloudflare_listRecords serve lib name recordType st =
  roundTrip serve (Cloudflare_request lib (self st) MethodGet
               (Cloudflare_listURL (self st) name recordType) None)
            (Cloudflare_handle (Unmarshal_cfList lib) cfListSuccess
                               cfListErrors cfListResult) st.
Proof.
  intros name recordType st. unfold Cloudflare_listRecords, roundTrip, bind,
    getSelf, liftE, client_Do, ReadAll, Cloudflare_handle, orReturn,
    Cloudflare_listURL.
  destruct (Cloudflare_request _ _ _ _ _) as [e|req]; [reflexivity|].
  unfold ret, fail.
  destruct (serve _ _) as [s' [e|resp]]; [reflexivity|].
  destruct (snd (Body resp)); [reflexivity|].
  destruct (Unmarshal_cfList _ _) as [e|r]; [reflexivity|].
  destruct (cfListSuccess r); reflexivity.
Qed.

Lemma Cloudflare_deleteRecord_eq : forall recordID st,
  Cloudflare_deleteRecord serve lib recordID st =
  roundTrip serve (Cloudflare_request lib (self st) MethodDelete
               (Cloudflare_deleteURL (self st) recordID) None)
            (Cloudflare_handle (Unmarshal_cfDelete lib) cfDeleteSuccess
                               cfDeleteErrors (fun _ => tt)) st.
Proof.
  intros recordID st. unfold Cloudflare_deleteRecord, roundTrip, bind,
    getSelf, liftE, client_Do, ReadAll, Cloudflare_handle, orReturn,
    Cloudflare_deleteURL.
  destruct (Cloudflare_request _ _ _ _ _) as [e|req]; [reflexivity|].
  unfold ret, fail.
  destruct (serve _ _) as [s' [e|resp]]; [reflexivity|].
  destruct (snd (Body resp)); [reflexivity|].
  destruct (Unmarshal_cfDelete _ _) as [e|r]; [reflexivity|].
  destruct (cfDeleteSuccess r); reflexivity.
Qed.

Lemma Cloudflare_createRecord_eq : forall name recordType content st,
  Cloudflare_createRecord serve lib name recordType content st =
  roundTrip serve (Cloudflare_request lib (self st) MethodPost
               (Cloudflare_createURL (self st))
               (Some (Cloudflare_createPayload name recordType content)))
            (Cloudflare_handle (Unmarshal_cfCreate lib) cfCreateSuccess
                               cfCreateErrors (fun _ => tt)) st.
Proof.
  intros name recordType content st. unfold Cloudflare_createRecord, roundTrip,
    bind, getSelf, liftE, client_Do, ReadAll, Cloudflare_handle, orReturn,
    Cloudflare_createURL.
  destruct (Cloudflare_request _ _ _ _ _) as [e|req]; [reflexivity|].
  unfold ret, fail.
  destruct (serve _ _) as [s' [e|resp]]; [reflexivity|].
  destruct (snd (Body resp)); [reflexivity|].
  destruct (Unmarshal_cfCreate _ _) as [e|r]; [reflexivity|].
  destruct (cfCreateSuccess r); reflexivity.
Qed.

(** The exchanges a successful round trip adds to the log. *)
Lemma roundTrip_ok : forall P A (mk : error + Request)
    (handle : Response -> error + A) (st st' : State P) a,
  roundTrip serve mk handle st = (inr a, st') ->
  exists req s' resp,
    mk = inr req /\ serve (srv (net st)) req = (s', inr resp) /\
    handle resp = inr a /\
    st' = mkState (self st) (mkNet s' (sent (net st) ++ [(req, inr resp)])).
Proof.
  intros P A mk handle st st' a H. unfold roundTrip in H.
  destruct mk as [e|req]; [discriminate|].
  destruct (serve (srv (net st)) req) as [s' [e|resp]] eqn:Hs; [discriminate|].
  inversion H; subst. exists req, s', resp. repeat split; assumption.
Qed.

Lemma forRange_cons : forall St A (x : A) xs (body : A -> M St unit) st,
  forRange (x :: xs) body st =
  match body x st with
  | (inl e, st') => (inl e, st')
  | (inr _, st') => forRange xs body st'
  end.
Proof. reflexivity. Qed.

Lemma orReturn_ok : forall St A (c : M St A) f st a st',
  orReturn c f st = (inr a, st') -> c st = (inr a, st').
Proof.
  intros St A c f st a st' H. unfold orReturn in H.
  destruct (c st) as [[e|a0] s0]; [discriminate | exact H].
Qed.

(** getZoneName either answers from the cache or makes one round trip and
    stores the name it received. *)
Lemma getZoneName_eq : forall st,
  getZoneName serve lib st =
  if negb (cf_zoneName (self st) =? "")%string then (inr (cf_zoneName (self st)), st)
  else
    match roundTrip serve (Cloudflare_request lib (self st) MethodGet
                       (Cloudflare_zoneURL (self st)) None)
                    (Cloudflare_handle (Unmarshal_cfZone lib) cfZoneSuccess
                                       cfZoneErrors cfZoneResultName) st with
    | (inl e, st') => (inl e, st')
    | (inr name, st') =>
        (inr name,
         mkState (mkCloudflareProvider (cf_token (self st)) (cf_zoneID (self st)) name)
                 (net st'))
    end.
Proof.
  intros st. unfold getZoneName, bind, getSelf.
  destruct (negb (cf_zoneName (self st) =? "")%string); [reflexivity|].
  unfold roundTrip, liftE, client_Do, ReadAll, Cloudflare_handle, orReturn,
    Cloudflare_zoneURL, putSelf.
  destruct (Cloudflare_request _ _ _ _ _) as [e|req]; [reflexivity|].
  unfold ret, fail.
  destruct (serve _ _) as [s' [e|resp]]; [reflexivity|].
  destruct (snd (Body resp)); [reflexivity|].
  cbn [self net].
  destruct (Unmarshal_cfZone _ _) as [e|r]; [reflexivity|].
  destruct (cfZoneSuccess r); reflexivity.
Qed.

End Requests.

(** ** Successful runs: the exact requests sent *)

Section SuccessfulRuns.

Variable S : Type.
Variable serve : S -> Request -> S * DoResult.
Variable lib : GoLib.

Local Abbreviation State := (State S).

Lemma Vercel_createRecord_ok : forall name recordType value (st st' : State _),
  Vercel_createRecord serve lib name recordType value st = (inr tt, st') ->
  self st' = self st /\
  exists r,
    sent (net st') =
    (sent (net st)
     ++ [(Vercel_createRequest lib (self st) name recordType value, r)])%list.
Proof.
  intros name recordType value st st' H.
  rewrite Vercel_createRecord_eq in H.
  apply roundTrip_ok in H. destruct H as (req & s' & resp & Hreq & _ & _ & ->).
  apply Vercel_request_inv in Hreq. subst req.
  split; [reflexivity|]. eexists. reflexivity.
Qed.

Lemma Vercel_deleteRecord_ok : forall recordID (st st' : State _),
  Vercel_deleteRecord serve lib recordID st = (inr tt, st') ->
  self st' = self st /\
  exists r,
    sent (net st') =
    (sent (net st) ++ [(Vercel_deleteRequest lib (self st) recordID, r)])%list.
Proof.
  intros recordID st st' H.
  rewrite Vercel_deleteRecord_eq in H.
  apply roundTrip_ok in H. destruct H as (req & s' & resp & Hreq & _ & _ & ->).
  apply Vercel_request_inv in Hreq. subst req.
  split; [reflexivity|]. eexists. reflexivity.
Qed.

Lemma Cloudflare_createRecord_ok : forall name recordType content (st st' : State _),
  Cloudflare_createRecord serve lib name recordType content st = (inr tt, st') ->
  self st' = self st /\
  exists r,
    sent (net st') =
    (sent (net st)
     ++ [(Cloudflare_createRequest (self st) name recordType content, r)])%list.
Proof.
  intros name recordType content st st' H.
  rewrite Cloudflare_createRecord_eq in H.
  apply roundTrip_ok in H. destruct H as (req & s' & resp & Hreq & _ & _ & ->).
  apply Cloudflare_request_inv in Hreq. subst req.
  split; [reflexivity|]. eexists. reflexivity.
Qed.

Lemma Cloudflare_deleteRecord_ok : forall recordID (st st' : State _),
  Cloudflare_deleteRecord serve lib recordID st = (inr tt, st') ->
  self st' = self st /\
  exists r,
    sent (net st') =
    (sent (net st) ++ [(Cloudflare_deleteRequest (self st) recordID, r)])%list.
Proof.
  intros recordID st st' H.
  rewrite Cloudflare_deleteRecord_eq in H.
  apply roundTrip_ok in H. destruct H as (req & s' & resp & Hreq & _ & _ & ->).
  apply Cloudflare_request_inv in Hreq. subst req.
  split; [reflexivity|]. eexists. reflexivity.
Qed.

(** A loop whose every iteration, when it succeeds, keeps the provider
    struct and sends exactly the requests [reqs x]: the loop, when it
    succeeds, sends them for each element in order. *)
Lemma forRange_ok : forall P A (body : A -> M (State P) unit)
    (reqs : P -> A -> list Request),
  (forall x st st', body x st = (inr tt, st') ->
     self st' = self st /\
     exists exs, sent (net st') = (sent (net st) ++ exs)%list /\
                 map fst exs = reqs (self st) x) ->
  forall xs st st', forRange xs body st = (inr tt, st') ->
    self st' = self st /\
    exists exs, sent (net st') = (sent (net st) ++ exs)%list /\
                map fst exs = flat_map (reqs (self st)) xs.
Proof.
  intros P A body reqs Hbody.
  induction xs as [|x xs IH]; intros st st' H.
  - inversion H; subst. split; [reflexivity|].
    exists []. now rewrite app_nil_r.
  - rewrite forRange_cons in H.
    destruct (body x st) as [[e|[]] st1] eqn:Hb; [discriminate|].
    destruct (Hbody _ _ _ Hb) as [Hs1 (exs1 & Hl1 & Hm1)].
    destruct (IH _ _ H) as [Hs2 (exs2 & Hl2 & Hm2)].
    split; [congruence|].
    exists (exs1 ++ exs2)%list. split.
    + rewrite Hl2, Hl1, app_assoc. reflexivity.
    + rewrite map_app. cbn [flat_map]. rewrite Hs1 in Hm2.
      f_equal; [exact Hm1 | exact Hm2].
Qed.

Lemma flat_map_singleton : forall A B (f : A -> B) l,
  flat_map (fun x => [f x]) l = map f l.
Proof. induction l as [|a l IH]; simpl; [reflexivity | now rewrite IH]. Qed.

Lemma Vercel_CreateRecords_ok : forall subdomain ips (st st' : State _),
  Vercel_CreateRecords serve lib subdomain ips st = (inr tt, st') ->
  self st' = self st /\
  exists exs,
    sent (net st') = (sent (net st) ++ exs)%list /\
    map fst exs =
    map (fun ip => Vercel_createRequest lib (self st) subdomain
                     (createdType ip) (Addr_String lib ip)) ips.
Proof.
  intros subdomain ips st st' H. unfold Vercel_CreateRecords in H.
  rewrite <- flat_map_singleton.
  apply forRange_ok with
      (reqs := fun p ip => [Vercel_createRequest lib p subdomain
                                   (createdType ip) (Addr_String lib ip)]) in H; [exact H|].
  intros ip s0 s1 Hb. apply orReturn_ok in Hb.
  apply Vercel_createRecord_ok in Hb. destruct Hb as [Hs [r Hr]].
  split; [exact Hs|]. eexists [_]. split; [exact Hr | reflexivity].
Qed.

Lemma flat_map_filter : forall A B (f : A -> B) (t : A -> bool) l,
  flat_map (fun x => if t x then [f x] else []) l = map f (filter t l).
Proof.
  induction l as [|a l IH]; simpl; [reflexivity|].
  destruct (t a); simpl; now rewrite IH.
Qed.

Lemma Vercel_DeleteRecords_ok : forall subdomain ipv6 (st st' : State _),
  Vercel_DeleteRecords serve lib subdomain ipv6 st = (inr tt, st') ->
  exists records st1,
    Vercel_listRecords serve lib st = (inr records, st1) /\
    exists exs,
      sent (net st') = (sent (net st1) ++ exs)%list /\
      map fst exs =
      map (fun rec => Vercel_deleteRequest lib (self st) (vcID rec))
          (Vercel_matching (recordTypeOf ipv6) subdomain records).
Proof.
  intros subdomain ipv6 st st' H. unfold Vercel_DeleteRecords, bind in H.
  destruct (Vercel_listRecords serve lib st) as [[e|records] st1] eqn:Hl;
    [discriminate|].
  exists records, st1. split; [reflexivity|].
  assert (Hself : self st1 = self st).
  { rewrite Vercel_listRecords_eq in Hl. apply roundTrip_ok in Hl.
    destruct Hl as (? & ? & ? & _ & _ & _ & ->). reflexivity. }
  unfold Vercel_matching. rewrite <- flat_map_filter.
  apply forRange_ok with
      (reqs := fun p rec =>
              if (vcType rec =? recordTypeOf ipv6)%string
                 && (vcName rec =? subdomain)%string
              then [Vercel_deleteRequest lib p (vcID rec)] else []) in H.
  - rewrite Hself in H. exact (proj2 H).
  - intros rec s0 s1 Hb.
    destruct ((vcType rec =? recordTypeOf ipv6)%string
              && (vcName rec =? subdomain)%string).
    + apply orReturn_ok in Hb. apply Vercel_deleteRecord_ok in Hb.
      destruct Hb as [Hs [r Hr]].
      split; [exact Hs|]. eexists [_]. split; [exact Hr | reflexivity].
    + inversion Hb; subst. split; [reflexivity|].
      exists []. now rewrite app_nil_r.
Qed.

Lemma getZoneName_ok : forall (st st' : State _) name,
  getZoneName serve lib st = (inr name, st') ->
  cf_token (self st') = cf_token (self st) /\
  cf_zoneID (self st') = cf_zoneID (self st) /\
  cf_zoneName (self st') = name /\
  ((cf_zoneName (self st) <> "" /\ st' = st) \/
   (cf_zoneName (self st) = "" /\
    exists r, sent (net st') =
              (sent (net st)
               ++ [(mkRequest MethodGet (Cloudflare_zoneURL (self st))
                              (Cloudflare_headers (self st)) None, r)])%list)).
Proof.
  intros st st' name H. rewrite getZoneName_eq in H.
  destruct (cf_zoneName (self st) =? "")%string eqn:E; cbn [negb] in H.
  - apply String.eqb_eq in E.
    destruct (roundTrip _ _ _ st) as [[e|nm] s1] eqn:R; [discriminate|].
    inversion H; subst. apply roundTrip_ok in R.
    destruct R as (req & s' & resp & Hreq & _ & _ & ->).
    apply Cloudflare_request_inv in Hreq. subst req. cbn.
    repeat split. right. split; [exact E|]. eexists. reflexivity.
  - apply String.eqb_neq in E. inversion H; subst.
    repeat split. left. split; [exact E | reflexivity].
Qed.

Lemma buildFQDN_ok : forall subdomain (st st' : State _) fqdn,
  buildFQDN serve lib subdomain st = (inr fqdn, st') ->
  getZoneName serve lib st = (inr (cf_zoneName (self st')), st') /\
  fqdn = fqdnOf subdomain (cf_zoneName (self st')).
Proof.
  intros subdomain st st' fqdn H. unfold buildFQDN, bind, orReturn in H.
  destruct (getZoneName serve lib st) as [[e|name] s1] eqn:G; [discriminate|].
  pose proof (getZoneName_ok _ G) as (_ & _ & Hn & _).
  unfold fqdnOf.
  destruct ((subdomain =? "")%string || (subdomain =? "@")%string);
    inversion H; subst; split; reflexivity.
Qed.

Lemma Cloudflare_createRequest_ext : forall p q name recordType content,
  cf_token p = cf_token q -> cf_zoneID p = cf_zoneID q ->
  Cloudflare_createRequest p name recordType content =
  Cloudflare_createRequest q name recordType content.
Proof.
  intros p q name recordType content Ht Hz.
  unfold Cloudflare_createRequest, Cloudflare_createURL, Cloudflare_headers.
  now rewrite Ht, Hz.
Qed.

Lemma Cloudflare_CreateRecords_ok : forall subdomain ips (st st' : State _),
  Cloudflare_CreateRecords serve lib subdomain ips st = (inr tt, st') ->
  exists fqdn st1,
    buildFQDN serve lib subdomain st = (inr fqdn, st1) /\
    self st' = self st1 /\
    exists exs,
      sent (net st') = (sent (net st1) ++ exs)%list /\
      map fst exs =
      map (fun ip => Cloudflare_createRequest (self st) fqdn
                       (createdType ip) (Addr_String lib ip)) ips.
Proof.
  intros subdomain ips st st' H. unfold Cloudflare_CreateRecords, bind in H.
  destruct (buildFQDN serve lib subdomain st) as [[e|fqdn] st1] eqn:B;
    [discriminate|].
  exists fqdn, st1. split; [reflexivity|].
  pose proof (buildFQDN_ok _ _ B) as [G _].
  pose proof (getZoneName_ok _ G) as (Ht & Hz & _).
  apply forRange_ok with
      (reqs := fun p ip => [Cloudflare_createRequest p fqdn
                                   (createdType ip) (Addr_String lib ip)]) in H.
  - destruct H as [Hs (exs & Hl & Hm)]. split; [exact Hs|].
    exists exs. split; [exact Hl|].
    rewrite Hm, flat_map_singleton. apply map_ext. intros ip.
    apply Cloudflare_createRequest_ext; assumption.
  - intros ip s0 s1 Hb. apply orReturn_ok in Hb.
    apply Cloudflare_createRecord_ok in Hb. destruct Hb as [Hs [r Hr]].
    split; [exact Hs|]. eexists [_]. split; [exact Hr | reflexivity].
Qed.

Lemma Cloudflare_DeleteRecords_ok : forall subdomain ipv6 (st st' : State _),
  Cloudflare_DeleteRecords serve lib subdomain ipv6 st = (inr tt, st') ->
  exists fqdn st1 records st2,
    buildFQDN serve lib subdomain st = (inr fqdn, st1) /\
    Cloudflare_listRecords serve lib fqdn (recordTypeOf ipv6) st1
    = (inr records, st2) /\
    exists exs,
      sent (net st') = (sent (net st2) ++ exs)%list /\
      map fst exs =
      map (fun rec => Cloudflare_deleteRequest (self st) (cfID rec)) records.
Proof.
  intros subdomain ipv6 st st' H. unfold Cloudflare_DeleteRecords, bind in H.
  destruct (buildFQDN serve lib subdomain st) as [[e|fqdn] st1] eqn:B;
    [discriminate|].
  destruct (Cloudflare_listRecords serve lib fqdn (recordTypeOf ipv6) st1)
    as [[e|records] st2] eqn:L; [discriminate|].
  exists fqdn, st1, records, st2.
  split; [reflexivity|]. split; [exact L|].
  pose proof (buildFQDN_ok _ _ B) as [G _].
  pose proof (getZoneName_ok _ G) as (Ht & Hz & _).
  assert (Hself : self st2 = self st1).
  { rewrite Cloudflare_listRecords_eq in L. apply roundTrip_ok in L.
    destruct L as (? & ? & ? & _ & _ & _ & ->). reflexivity. }
  apply forRange_ok with
      (reqs := fun p rec => [Cloudflare_deleteRequest p (cfID rec)]) in H.
  - destruct H as [_ (exs & Hl & Hm)].
    exists exs. split; [exact Hl|].
    rewrite Hm, flat_map_singleton. apply map_ext. intros rec.
    unfold Cloudflare_deleteRequest, Cloudflare_deleteURL, Cloudflare_headers.
    rewrite Hself, Ht, Hz. reflexivity.
  - intros rec s0 s1 Hb. apply orReturn_ok in Hb.
    apply Cloudflare_deleteRecord_ok in Hb. destruct Hb as [Hs [r Hr]].
    split; [exact Hs|]. eexists [_]. split; [exact Hr | reflexivity].
Qed.

End SuccessfulRuns.

(** ** API failures end the run *)

Section FinalFailure.

Variable St : Type.
Variable logOf : St -> list Exchange.
Variable Inv : St -> Prop.
Variable failed : Exchange -> Prop.
Variable apiError : Exchange -> error.

Local Abbreviation final := (final_failure logOf Inv failed apiError).

Lemma final_silent : forall A (c : M St A),
  (forall st, Inv st -> Inv (snd (c st)) /\ logOf (snd (c st)) = logOf st) ->
  final c.
Proof.
  intros A c H st Hi. destruct (H st Hi) as [Hi' Hl]. split; [exact Hi'|].
  exists []. rewrite app_nil_r. split; [exact Hl|].
  intros pre ex post E. destruct pre; discriminate.
Qed.

Lemma final_ret : forall A (a : A), final (ret a).
Proof. intros A a. apply final_silent. intros st Hi. now split. Qed.

Lemma final_fail : forall A e, final (@fail St A e).
Proof. intros A e. apply final_silent. intros st Hi. now split. Qed.

Lemma final_liftE : forall A (r : error + A), final (liftE r).
Proof. intros A [e|a]; [apply final_fail | apply final_ret]. Qed.

Lemma final_bind : forall A B (c : M St A) (k : A -> M St B),
  final c -> (forall a, final (k a)) ->
  final (bind c k).
Proof.
  intros A B c k Hc Hk st Hi. unfold bind.
  destruct (Hc st Hi) as [Hi1 (exs1 & Hl1 & Hf1)].
  destruct (c st) as [[e|a] s1] eqn:Ec; cbn [fst snd] in *.
  - split; [exact Hi1|]. exists exs1. split; [exact Hl1|].
    intros pre ex post E Hbad.
    destruct (Hf1 pre ex post E Hbad) as [Hp (e0 & He & Hw)].
    split; [exact Hp|]. inversion He; subst e0.
    exists e. split; [reflexivity | exact Hw].
  - destruct (Hk a s1 Hi1) as [Hi2 (exs2 & Hl2 & Hf2)].
    split; [exact Hi2|]. exists (exs1 ++ exs2)%list. split.
    + rewrite Hl2, Hl1, app_assoc. reflexivity.
    + intros pre ex post E Hbad.
      apply app_eq_app in E. destruct E as [l [[E1 E2]|[E1 E2]]].
      * destruct l as [|x l].
        -- rewrite app_nil_r in E1. cbn [app] in E2. subst pre.
           apply (Hf2 [] ex post); [symmetry; exact E2 | exact Hbad].
        -- cbn [app] in E2. inversion E2; subst x post.
           destruct (Hf1 pre ex l E1 Hbad) as [_ (e & He & _)]. discriminate.
      * apply (Hf2 l ex post); [exact E2 | exact Hbad].
Qed.

Lemma final_orReturn : forall A (c : M St A) prefix,
  final c -> final (orReturn c (wrapError prefix)).
Proof.
  intros A c prefix Hc st Hi. unfold orReturn.
  destruct (Hc st Hi) as [Hi1 (exs & Hl & Hf)].
  destruct (c st) as [[e|a] s1]; cbn [fst snd] in *.
  - split; [exact Hi1|]. exists exs. split; [exact Hl|].
    intros pre ex post E Hbad.
    destruct (Hf pre ex post E Hbad) as [Hp (e0 & He & Hw)].
    split; [exact Hp|]. inversion He; subst e0.
    exists (wrapError prefix e). split; [reflexivity|].
    apply Wraps_step. exact Hw.
  - split; [exact Hi1|]. exists exs. split; [exact Hl|].
    intros pre ex post E Hbad.
    destruct (Hf pre ex post E Hbad) as [_ (e0 & He & _)]. discriminate.
Qed.

Lemma final_forRange : forall A (body : A -> M St unit) xs,
  (forall x, final (body x)) -> final (forRange xs body).
Proof.
  intros A body xs Hb. induction xs as [|x xs IH]; simpl.
  - apply final_ret.
  - apply final_bind; [apply Hb | intros _; exact IH].
Qed.

Lemma final_when : forall b (c : M St unit),
  final c -> final (when_ b c).
Proof. intros [|] c Hc; [exact Hc | apply final_ret]. Qed.

End FinalFailure.

Section ProviderFailures.

Variable S : Type.
Variable serve : S -> Request -> S * DoResult.
Variable lib : GoLib.

Local Abbreviation State := (State S).

Lemma final_ext : forall St logOf Inv failed apiError A (c c' : M St A),
  (forall st, c st = c' st) ->
  final_failure logOf Inv failed apiError c' ->
  final_failure logOf Inv failed apiError c.
Proof.
  intros St logOf Inv failed apiError A c c' E H st Hi. rewrite E.
  exact (H st Hi).
Qed.

Lemma final_roundTripThen : forall P (IP : P -> Prop) failed apiError A
    (mk : P -> error + Request) (handle : Response -> error + A)
    (upd : P -> A -> P),
  (forall p a, IP p -> IP (upd p a)) ->
  (forall p req dr, IP p -> mk p = inr req -> failed (req, dr) ->
     exists e,
       match dr with inl e0 => inl e0 | inr resp => handle resp end = inl e /\
       Wraps e (apiError (req, dr))) ->
  final_failure (@netLog S P) (fun st => IP (self st)) failed apiError
                (roundTripThen serve mk handle upd).
Proof.
  intros P IP failed apiError A mk handle upd Hupd Hbad st Hi.
  unfold roundTripThen, roundTrip.
  destruct (mk (self st)) as [e|req] eqn:Hmk.
  - cbn [fst snd]. split; [exact Hi|]. exists []. unfold netLog.
    rewrite app_nil_r. split; [reflexivity|].
    intros pre ex post E. destruct pre; discriminate.
  - destruct (serve (srv (net st)) req) as [s' dr] eqn:Hs.
    assert (Hlog : forall r (p' : P),
      netLog (snd (r : error + A, mkState p' (mkNet s' (sent (net st) ++ [(req, dr)]))))
      = (netLog st ++ [(req, dr)])%list) by reflexivity.
    assert (Hone : forall pre ex post,
      [(req, dr)] = (pre ++ ex :: post)%list ->
      ex = (req, dr) /\ post = []).
    { intros [|x pre] ex post E; cbn [app] in E.
      - inversion E. split; reflexivity.
      - inversion E. destruct pre; discriminate. }
    destruct (match dr with inl e => inl e | inr resp => handle resp end)
      as [e|a] eqn:Hr; cbn [fst snd self net].
    + split; [exact Hi|]. exists [(req, dr)]. split; [reflexivity|].
      intros pre ex post E Hf. destruct (Hone _ _ _ E) as [-> ->].
      split; [reflexivity|].
      destruct (Hbad _ _ _ Hi Hmk Hf) as (e1 & He1 & Hw).
      rewrite Hr in He1. inversion He1; subst e1.
      exists e. split; [reflexivity | exact Hw].
    + split; [apply Hupd; exact Hi|]. exists [(req, dr)].
      split; [reflexivity|].
      intros pre ex post E Hf. destruct (Hone _ _ _ E) as [-> ->].
      destruct (Hbad _ _ _ Hi Hmk Hf) as (e1 & He1 & _).
      rewrite Hr in He1. discriminate.
Qed.

Lemma roundTripThen_id : forall P A (mk : P -> error + Request)
    (handle : Response -> error + A) st,
  roundTrip serve (mk (self st)) handle st
  = roundTripThen serve mk handle (fun p _ => p) st.
Proof.
  intros P A mk handle st. unfold roundTripThen.
  destruct (roundTrip serve (mk (self st)) handle st) as [[e|a] st'] eqn:R;
    [reflexivity|].
  apply roundTrip_ok in R. destruct R as (? & ? & ? & _ & _ & _ & ->).
  reflexivity.
Qed.

End ProviderFailures.

Section ProviderFinality.

Variable S : Type.
Variable serve : S -> Request -> S * DoResult.
Variable lib : GoLib.

Local Abbreviation State := (State S).
Local Abbreviation vercelFinal :=
  (final_failure (@netLog S VercelProvider) (fun _ => True)
                 vercelFailed (vercelErrorOf lib)).

Lemma geb_400 : forall z, 400 <= z -> (z >=? 400) = true.
Proof. intros z H. apply Z.geb_le. exact H. Qed.

Lemma Vercel_handleStatus_failed : forall p method url body req dr,
  method <> MethodGet ->
  Vercel_request lib p method url body = inr req ->
  vercelFailed (req, dr) ->
  exists e,
    match dr with inl e0 => inl e0 | inr resp => Vercel_handleStatus lib resp end
    = inl e /\ Wraps e (vercelErrorOf lib (req, dr)).
Proof.
  intros p method url body req dr Hm Hreq Hf.
  apply Vercel_request_inv in Hreq. subst req.
  unfold vercelFailed in Hf. cbn [snd] in Hf.
  destruct dr as [e0|resp]; [contradiction|].
  unfold Vercel_handleStatus, vercelErrorOf. cbn [fst snd ReqMethod].
  rewrite (geb_400 Hf). eexists. split; [reflexivity|].
  destruct method; [congruence | |]; apply Wraps_refl.
Qed.

Lemma Vercel_listRecords_final : vercelFinal (Vercel_listRecords serve lib).
Proof.
  eapply final_ext.
  - intros st. rewrite Vercel_listRecords_eq.
    apply (roundTripThen_id serve
             (fun p => Vercel_request lib p MethodGet (Vercel_listURL lib p) None)).
  - apply (final_roundTripThen serve (fun _ : VercelProvider => True)).
    + trivial.
    + intros p req dr _ Hreq Hf.
      apply Vercel_request_inv in Hreq. subst req.
      unfold vercelFailed in Hf. cbn [snd] in Hf.
      destruct dr as [e0|resp]; [contradiction|].
      unfold Vercel_handleList, vercelErrorOf. cbn [fst snd ReqMethod].
      destruct (snd (Body resp)) as [e|].
      * eexists. split; [reflexivity | apply Wraps_refl].
      * rewrite (geb_400 Hf). eexists. split; [reflexivity | apply Wraps_refl].
Qed.

Lemma Vercel_deleteRecord_final : forall recordID,
  vercelFinal (Vercel_deleteRecord serve lib recordID).
Proof.
  intros recordID. eapply final_ext.
  - intros st. rewrite Vercel_deleteRecord_eq.
    apply (roundTripThen_id serve
             (fun p => Vercel_request lib p MethodDelete
                         (Vercel_deleteURL lib p recordID) None)).
  - apply (final_roundTripThen serve (fun _ : VercelProvider => True)).
    + trivial.
    + intros p req dr _ Hreq Hf.
      eapply Vercel_handleStatus_failed; [| exact Hreq | exact Hf]. discriminate.
Qed.

Lemma Vercel_createRecord_final : forall name recordType value,
  vercelFinal (Vercel_createRecord serve lib name recordType value).
Proof.
  intros name recordType value. eapply final_ext.
  - intros st. rewrite Vercel_createRecord_eq.
    apply (roundTripThen_id serve
             (fun p => Vercel_request lib p MethodPost (Vercel_createURL lib p)
                         (Some (Vercel_createPayload name recordType value)))).
  - apply (final_roundTripThen serve (fun _ : VercelProvider => True)).
    + trivial.
    + intros p req dr _ Hreq Hf.
      eapply Vercel_handleStatus_failed; [| exact Hreq | exact Hf]. discriminate.
Qed.

Lemma Vercel_DeleteRecords_final : forall subdomain ipv6,
  vercelFinal (Vercel_DeleteRecords serve lib subdomain ipv6).
Proof.
  intros subdomain ipv6. unfold Vercel_DeleteRecords.
  apply final_bind; [apply Vercel_listRecords_final|].
  intros records. apply final_forRange. intros rec.
  destruct (_ && _); [|apply final_ret].
  apply final_orReturn, Vercel_deleteRecord_final.
Qed.

Lemma Vercel_CreateRecords_final : forall subdomain ips,
  vercelFinal (Vercel_CreateRecords serve lib subdomain ips).
Proof.
  intros subdomain ips. unfold Vercel_CreateRecords.
  apply final_forRange. intros ip.
  apply final_orReturn, Vercel_createRecord_final.
Qed.

(** *** Cloudflare *)

Variable zoneID : string.

Local Abbreviation cfInv :=
  (fun st : State CloudflareProvider => cf_zoneID (self st) = zoneID).
Local Abbreviation cloudflareFinal :=
  (final_failure (@netLog S CloudflareProvider) cfInv
                 (cloudflareFailed lib zoneID) (cloudflareErrorOf lib zoneID)).

Lemma append_cancel_l : forall a x y : string, a ++ x = a ++ y -> x = y.
Proof.
  induction a as [|c a IH]; intros x y H; simpl in H; [exact H|].
  inversion H. apply IH. assumption.
Qed.

Lemma append_nil_r : forall a : string, a ++ "" = a.
Proof. induction a as [|c a IH]; simpl; [reflexivity | now rewrite IH]. Qed.

Lemma Cloudflare_listURL_not_zoneURL : forall p name recordType,
  (Cloudflare_listURL p name recordType
   =? cloudflareAPIBase ++ "/zones/" ++ cf_zoneID p)%string = false.
Proof.
  intros p name recordType. apply String.eqb_neq. unfold Cloudflare_listURL.
  intros H. apply append_cancel_l in H. apply append_cancel_l in H.
  rewrite <- (append_nil_r (cf_zoneID p)) in H at 2.
  apply append_cancel_l in H. discriminate.
Qed.

(** What the handler of a call makes of a failed exchange, given that
    the verdict on the exchange is read with the call's decoder. *)
Lemma Cloudflare_handle_failed : forall R A (unmarshal : string -> error + R)
    success errors (result : R -> A) req dr,
  (forall resp, dr = inr resp -> snd (Body resp) = None ->
     cfVerdict lib zoneID (req, dr) =
     match unmarshal (fst (Body resp)) with
     | inr r => Some (success r, errors r)
     | inl _ => None
     end) ->
  cloudflareFailed lib zoneID (req, dr) ->
  exists e,
    match dr with
    | inl e0 => inl e0
    | inr resp => Cloudflare_handle unmarshal success errors result resp
    end = inl e /\
    Wraps e (cloudflareErrorOf lib zoneID (req, dr)).
Proof.
  intros R A unmarshal success errors result req dr Hv [errs Hf].
  unfold cloudflareErrorOf. rewrite Hf.
  destruct dr as [e0|resp]; [discriminate|].
  unfold Cloudflare_handle.
  destruct (snd (Body resp)) as [e|] eqn:Hb.
  - unfold cfVerdict in Hf. cbn [snd] in Hf. rewrite Hb in Hf. discriminate.
  - rewrite (Hv resp eq_refl Hb) in Hf.
    destruct (unmarshal (fst (Body resp))) as [e|r]; [discriminate|].
    inversion Hf as [[Hs He]]. rewrite Hs. cbn [negb].
    eexists. split; [reflexivity | apply Wraps_refl].
Qed.

Lemma Cloudflare_listRecords_final : forall name recordType,
  cloudflareFinal (Cloudflare_listRecords serve lib name recordType).
Proof.
  intros name recordType. eapply final_ext.
  - intros st. rewrite Cloudflare_listRecords_eq.
    apply (roundTripThen_id serve
             (fun p => Cloudflare_request lib p MethodGet
                         (Cloudflare_listURL p name recordType) None)).
  - apply (final_roundTripThen serve (fun p => cf_zoneID p = zoneID)).
    + trivial.
    + intros p req dr Hz Hreq Hf.
      apply Cloudflare_request_inv in Hreq. subst req.
      apply Cloudflare_handle_failed; [|exact Hf].
      intros resp -> Hb. unfold cfVerdict. cbn [fst snd ReqMethod ReqURL].
      rewrite Hb, <- Hz, Cloudflare_listURL_not_zoneURL. reflexivity.
Qed.

Lemma Cloudflare_deleteRecord_final : forall recordID,
  cloudflareFinal (Cloudflare_deleteRecord serve lib recordID).
Proof.
  intros recordID. eapply final_ext.
  - intros st. rewrite Cloudflare_deleteRecord_eq.
    apply (roundTripThen_id serve
             (fun p => Cloudflare_request lib p MethodDelete
                         (Cloudflare_deleteURL p recordID) None)).
  - apply (final_roundTripThen serve (fun p => cf_zoneID p = zoneID)).
    + trivial.
    + intros p req dr Hz Hreq Hf.
      apply Cloudflare_request_inv in Hreq. subst req.
      apply Cloudflare_handle_failed; [|exact Hf].
      intros resp -> Hb. unfold cfVerdict. cbn [fst snd ReqMethod ReqURL].
      rewrite Hb. reflexivity.
Qed.

Lemma Cloudflare_createRecord_final : forall name recordType content,
  cloudflareFinal (Cloudflare_createRecord serve lib name recordType content).
Proof.
  intros name recordType content. eapply final_ext.
  - intros st. rewrite Cloudflare_createRecord_eq.
    apply (roundTripThen_id serve
             (fun p => Cloudflare_request lib p MethodPost
                         (Cloudflare_createURL p)
                         (Some (Cloudflare_createPayload name recordType content)))).
  - apply (final_roundTripThen serve (fun p => cf_zoneID p = zoneID)).
    + trivial.
    + intros p req dr Hz Hreq Hf.
      apply Cloudflare_request_inv in Hreq. subst req.
      apply Cloudflare_handle_failed; [|exact Hf].
      intros resp -> Hb. unfold cfVerdict. cbn [fst snd ReqMethod ReqURL].
      rewrite Hb. reflexivity.
Qed.

Lemma getZoneName_final : cloudflareFinal (getZoneName serve lib).
Proof.
  intros st Hi. rewrite getZoneName_eq.
  destruct (negb (cf_zoneName (self st) =? "")%string).
  - exact (final_ret (@netLog S CloudflareProvider) cfInv
             (cloudflareFailed lib zoneID) (cloudflareErrorOf lib zoneID)
             (cf_zoneName (self st)) st Hi).
  - refine (final_roundTripThen serve (fun p => cf_zoneID p = zoneID)
              (cloudflareFailed lib zoneID) (cloudflareErrorOf lib zoneID)
              (fun p => Cloudflare_request lib p MethodGet
                          (Cloudflare_zoneURL p) None)
              (Cloudflare_handle (Unmarshal_cfZone lib) cfZoneSuccess
                                 cfZoneErrors cfZoneResultName)
              (fun p name => mkCloudflareProvider (cf_token p) (cf_zoneID p) name)
              _ _ st Hi).
    + intros p a Hp. exact Hp.
    + intros p req dr Hz Hreq Hf.
      apply Cloudflare_request_inv in Hreq. subst req.
      apply Cloudflare_handle_failed; [|exact Hf].
      intros resp -> Hb. unfold cfVerdict. cbn [fst snd ReqMethod ReqURL].
      unfold Cloudflare_zoneURL. rewrite Hb, <- Hz, String.eqb_refl. reflexivity.
Qed.

Lemma buildFQDN_final : forall subdomain,
  cloudflareFinal (buildFQDN serve lib subdomain).
Proof.
  intros subdomain. unfold buildFQDN.
  apply final_bind; [apply final_orReturn, getZoneName_final|].
  intros zoneName. destruct (_ || _); apply final_ret.
Qed.

Lemma Cloudflare_DeleteRecords_final : forall subdomain ipv6,
  cloudflareFinal (Cloudflare_DeleteRecords serve lib subdomain ipv6).
Proof.
  intros subdomain ipv6. unfold Cloudflare_DeleteRecords.
  apply final_bind; [apply buildFQDN_final|]. intros fqdn.
  apply final_bind; [apply Cloudflare_listRecords_final|]. intros records.
  apply final_forRange. intros rec.
  apply final_orReturn, Cloudflare_deleteRecord_final.
Qed.

Lemma Cloudflare_CreateRecords_final : forall subdomain ips,
  cloudflareFinal (Cloudflare_CreateRecords serve lib subdomain ips).
Proof.
  intros subdomain ips. unfold Cloudflare_CreateRecords.
  apply final_bind; [apply buildFQDN_final|]. intros fqdn.
  apply final_forRange. intros ip.
  apply final_orReturn, Cloudflare_createRecord_final.
Qed.

End ProviderFinality.

Section UploadFinality.

Variable W : Type.
Variable provider : Provider W.
Variable lg : W -> list Exchange.
Variable Inv : W -> Prop.
Variable failed : Exchange -> Prop.
Variable apiError : Exchange -> error.

Hypothesis DeleteRecords_final : forall subdomain ipv6,
  final_failure lg Inv failed apiError (DeleteRecords provider subdomain ipv6).
Hypothesis CreateRecords_final : forall subdomain ips,
  final_failure lg Inv failed apiError (CreateRecords provider subdomain ips).

Lemma invoke_final : forall c,
  final_failure (uploadLog lg) (uploadInv Inv) failed apiError (invoke provider c).
Proof.
  intros c st Hi. unfold invoke, uploadLog, uploadInv in *.
  assert (Hc : final_failure lg Inv failed apiError (runCall provider c)).
  { destruct c; [apply DeleteRecords_final | apply CreateRecords_final]. }
  specialize (Hc (world st) Hi).
  destruct (runCall provider c (world st)) as [r w']. exact Hc.
Qed.

Lemma Fprintf_Stderr_final : forall line,
  final_failure (uploadLog lg) (uploadInv Inv) failed apiError (@Fprintf_Stderr W line).
Proof.
  intros line. apply final_silent. intros st Hi. split; [exact Hi | reflexivity].
Qed.

Lemma Upload_final : forall subdomain ips verbose,
  final_failure (uploadLog lg) (uploadInv Inv) failed apiError
                (Upload provider subdomain ips verbose).
Proof.
  intros subdomain ips verbose. unfold Upload.
  destruct (len ips =? 0); [apply final_ret|].
  destruct (separate ips [] []) as [v4 v6].
  repeat first
    [ apply final_ret
    | apply final_when
    | apply Fprintf_Stderr_final
    | apply final_orReturn
    | apply invoke_final
    | apply final_bind; [|intros _]
    | match goal with |- context [if ?b then _ else _] => destruct b end ].
Qed.

End UploadFinality.

(** ** Upload: the claims *)

Lemma perform_prefix : forall W (provider : Provider W) cs w pre c r post,
  perform provider cs w = (pre ++ (c, r) :: post)%list ->
  exists rest, cs = (map fst pre ++ c :: rest)%list /\ Forall succeeded pre.
Proof.
  intros W provider. induction cs as [|c0 cs IH]; intros w pre c r post H;
    simpl in H.
  - destruct pre; discriminate.
  - destruct (runCall provider c0 w) as [[e0|u] w'] eqn:R.
    + destruct pre as [|x pre]; simpl in H.
      * inversion H; subst. exists cs. split; [reflexivity | constructor].
      * inversion H. destruct pre; discriminate.
    + destruct pre as [|x pre]; simpl in H.
      * inversion H; subst. exists cs. split; [reflexivity | constructor].
      * inversion H; subst.
        destruct (IH _ _ _ _ _ H2) as (rest & Hc & Hs).
        exists rest. split; [simpl; now rewrite Hc|].
        constructor; [destruct u; reflexivity | exact Hs].
Qed.

(** C8: for the empty address list [Upload] returns nil at once: the
    state is untouched, so no provider method was called (no
    DeleteRecords, no CreateRecords) and nothing was printed. *)
Theorem Upload_empty : forall W (provider : Provider W) subdomain verbose st,
  Upload provider subdomain [] verbose st = (inr tt, st).
Proof. intros W provider subdomain verbose st. reflexivity. Qed.

(** C1 (as amended): the provider calls of [Upload] are its planned calls
    (DeleteRecords then CreateRecords for the IPv4 addresses if there are
    any, then DeleteRecords then CreateRecords for the other addresses if
    there are any) run in order up to the first one that returns an
    error; so every CreateRecords call comes right after the
    DeleteRecords call of the same family, which returned nil. *)
Theorem Upload_calls_in_order :
  forall W (provider : Provider W) subdomain ips verbose st,
    let tr := perform provider (planned_calls subdomain ips) (world st) in
    calls (snd (Upload provider subdomain ips verbose st))
    = (calls st ++ tr)%list /\
    forall pre subdomain' ips' r post,
      tr = (pre ++ (CallCreate subdomain' ips', r) :: post)%list ->
      exists pre' ipv6,
        pre = (pre' ++ [(CallDelete subdomain' ipv6, inr tt)])%list /\
        ips' = filter (fun ip => if ipv6 then negb (Is4 ip) else Is4 ip) ips.
Proof.
  intros W provider subdomain ips verbose st tr. split.
  - exact (proj1 (Upload_run provider subdomain ips verbose st)).
  - intros pre subdomain' ips' r post H. subst tr.
    apply perform_prefix in H. destruct H as (rest & Hc & Hs).
    unfold planned_calls in Hc.
    assert (Hlast : forall (x : ProviderCall * (error + unit)) l,
               Forall succeeded (l ++ [x]) -> snd x = inr tt).
    { intros x l Hf. apply Forall_app in Hf. destruct Hf as [_ Hx].
      inversion Hx; assumption. }
    destruct (filter Is4 ips) as [|a4 v4] eqn:E4;
      destruct (filter (fun ip => negb (Is4 ip)) ips) as [|a6 v6] eqn:E6;
      cbn [app] in Hc;
      destruct pre as [|[c1 r1] [|[c2 r2] [|[c3 r3] [|[c4 r4] pre]]]];
      cbn [map app fst] in Hc; inversion Hc; subst;
      repeat match goal with
      | H : Forall succeeded (_ :: _) |- _ => inversion H; clear H; subst
      end;
      unfold succeeded in *; cbn [snd] in *; subst.
    all: try match goal with
         | H : [] = (_ ++ _ :: _)%list |- _ => destruct (app_cons_not_nil _ _ _ H)
         end.
    + exists [], true. split; [reflexivity | symmetry; exact E6].
    + exists [], false. split; [reflexivity | symmetry; exact E4].
    + exists [], false. split; [reflexivity | symmetry; exact E4].
    + eexists [_; _], true. split; [reflexivity | symmetry; exact E6].
Qed.

(** C1 (as stated) fails: with an IPv4 and an IPv6 address and a provider
    whose DeleteRecords for A records returns an error, [Upload] makes
    that one call and returns; the IPv6 family is present in the list
    and DeleteRecords is never called for it. *)
Lemma Upload_stops_before_second_family :
  In Fixture.ip6a [Fixture.ip4a; Fixture.ip6a] /\
  Is4 Fixture.ip6a = false /\
  calls (snd (Upload Fixture.brokenA "cf" [Fixture.ip4a; Fixture.ip6a] false
                     (Fixture.start tt)))
  = [(CallDelete "cf" false, inl (errorString "boom"))] /\
  ~ In (CallDelete "cf" true)
       (map fst (calls (snd (Upload Fixture.brokenA "cf"
                                    [Fixture.ip4a; Fixture.ip6a] false
                                    (Fixture.start tt))))).
Proof.
  split; [right; left; reflexivity|].
  split; [reflexivity|].
  split; [reflexivity|].
  cbn. intros [H|[]]. discriminate.
Qed.

(** ** NewProvider: the claim *)

(** C10: [NewProvider] returns an error, and then no provider, exactly
    when the provider name is neither "cloudflare" nor "vercel" or a
    required credential is empty after the environment fallback;
    otherwise it returns no error and the provider of the requested kind
    built from the credentials. *)
Theorem NewProvider_spec : forall Getenv cfg,
  let cfToken := orEnv (cfgToken cfg) (Getenv "CF_API_TOKEN") in
  let cfZone := orEnv (cfgZone cfg) (Getenv "CF_ZONE_ID") in
  let vcToken := orEnv (cfgToken cfg) (Getenv "VERCEL_TOKEN") in
  let vcTeam := orEnv (cfgTeamID cfg) (Getenv "VERCEL_TEAM_ID") in
  let invalid :=
    (cfgProvider cfg <> "cloudflare" /\ cfgProvider cfg <> "vercel") \/
    (cfgProvider cfg = "cloudflare" /\ (cfToken = "" \/ cfZone = "")) \/
    (cfgProvider cfg = "vercel" /\ (vcToken = "" \/ cfgZone cfg = "")) in
  let '(p, err) := NewProvider Getenv cfg in
  (err <> None <-> invalid) /\
  (err <> None -> p = None) /\
  (err = None ->
   (cfgProvider cfg = "cloudflare" /\
    p = Some (OfCloudflare (NewCloudflareProvider cfToken cfZone))) \/
   (cfgProvider cfg = "vercel" /\
    p = Some (OfVercel (NewVercelProvider vcToken (cfgZone cfg) vcTeam)))).
Proof.
  intros Getenv cfg. cbv zeta. unfold NewProvider, orEnv.
  assert (Hne : "cloudflare" <> "vercel") by discriminate.
  destruct (String.eqb_spec (cfgProvider cfg) "cloudflare") as [Hc|Hc].
  - destruct (String.eqb_spec
                (if (cfgToken cfg =? "")%string then Getenv "CF_API_TOKEN"
                 else cfgToken cfg) "") as [Ht|Ht].
    + split; [|split]; [| reflexivity | discriminate].
      split; [intros _ | discriminate].
      right; left. split; [exact Hc | left; exact Ht].
    + destruct (String.eqb_spec
                  (if (cfgZone cfg =? "")%string then Getenv "CF_ZONE_ID"
                   else cfgZone cfg) "") as [Hz|Hz].
      * split; [|split]; [| reflexivity | discriminate].
        split; [intros _ | discriminate].
        right; left. split; [exact Hc | right; exact Hz].
      * split; [|split].
        -- split; [intros H; congruence|].
           intros [[H _]|[[_ [H|H]]|[H _]]]; congruence.
        -- congruence.
        -- intros _. left. split; [exact Hc | reflexivity].
  - destruct (String.eqb_spec (cfgProvider cfg) "vercel") as [Hv|Hv].
    + destruct (String.eqb_spec
                  (if (cfgToken cfg =? "")%string then Getenv "VERCEL_TOKEN"
                   else cfgToken cfg) "") as [Ht|Ht].
      * split; [|split]; [| reflexivity | discriminate].
        split; [intros _ | discriminate].
        right; right. split; [exact Hv | left; exact Ht].
      * destruct (String.eqb_spec (cfgZone cfg) "") as [Hz|Hz].
        -- split; [|split]; [| reflexivity | discriminate].
           split; [intros _ | discriminate].
           right; right. split; [exact Hv | right; exact Hz].
        -- split; [|split].
           ++ split; [intros H; congruence|].
              intros [[_ H]|[[H _]|[_ [H|H]]]]; congruence.
           ++ congruence.
           ++ intros _. right. split; [exact Hv | reflexivity].
    + split; [|split]; [| reflexivity | discriminate].
      split; [intros _ | discriminate].
      left. split; assumption.
Qed.

(** ** CreateRecords and DeleteRecords: the claims *)

(** C2 (as amended): when CreateRecords of either provider returns nil,
    the requests it sent after resolving the name (Vercel: all of them;
    Cloudflare: those after [buildFQDN]) are exactly one record-creation
    request per address, in the order of the list, carrying the text form
    of the address as value and the type AAAA when the address is IPv6
    ([Is6]) and A otherwise. *)
Theorem CreateRecords_requests :
  forall S (serve : S -> Request -> S * DoResult) lib subdomain ips,
    (forall st st',
       Vercel_CreateRecords serve lib subdomain ips st = (inr tt, st') ->
       exists exs,
         sent (net st') = (sent (net st) ++ exs)%list /\
         map fst exs =
         map (fun ip =>
                Vercel_createRequest lib (self st) subdomain
                  (if Is6 ip then "AAAA" else "A") (Addr_String lib ip)) ips) /\
    (forall st st',
       Cloudflare_CreateRecords serve lib subdomain ips st = (inr tt, st') ->
       exists fqdn st1 exs,
         buildFQDN serve lib subdomain st = (inr fqdn, st1) /\
         sent (net st') = (sent (net st1) ++ exs)%list /\
         map fst exs =
         map (fun ip =>
                Cloudflare_createRequest (self st) fqdn
                  (if Is6 ip then "AAAA" else "A") (Addr_String lib ip)) ips).
Proof.
  intros S serve lib subdomain ips. split; intros st st' H.
  - apply Vercel_CreateRecords_ok in H. destruct H as [_ H]. exact H.
  - apply Cloudflare_CreateRecords_ok in H.
    destruct H as (fqdn & st1 & B & _ & exs & Hl & Hm).
    exists fqdn, st1, exs. repeat split; assumption.
Qed.

Lemma CreateRecords_requests_witness :
  exists st' exs,
    Vercel_CreateRecords Fixture.vercelServer Fixture.lib "cf"
      [Fixture.ip4a; Fixture.ip6a] Fixture.vcStart = (inr tt, st') /\
    sent (net st') = (sent (net Fixture.vcStart) ++ exs)%list /\
    map fst exs =
    [Vercel_createRequest Fixture.lib Fixture.vcProvider "cf" "A" "192.0.2.1";
     Vercel_createRequest Fixture.lib Fixture.vcProvider "cf" "AAAA" "2001:db8::1"].
Proof.
  eexists. 
  destruct (proj1 (CreateRecords_requests Fixture.vercelServer Fixture.lib "cf"
                     [Fixture.ip4a; Fixture.ip6a])
                  Fixture.vcStart _ eq_refl) as (exs & Hl & Hm).
  exists exs. split; [reflexivity|]. split; [exact Hl | exact Hm].
Defined.

(** C2 (as stated) fails: the zero Addr is not an IPv4 address, and the
    record created for it has type A, not AAAA. *)
Lemma CreateRecords_zero_addr_is_A :
  Is4 AddrZero = false /\
  fst (Vercel_CreateRecords Fixture.vercelServer Fixture.lib "cf" [AddrZero]
                            Fixture.vcStart) = inr tt /\
  map (fun ex => ReqBody (fst ex))
      (sent (net (snd (Vercel_CreateRecords Fixture.vercelServer Fixture.lib
                                            "cf" [AddrZero] Fixture.vcStart))))
  = [Some [("name", JString "cf"); ("type", JString "A");
           ("value", JString "invalid IP"); ("ttl", JInt 60)]] /\
  map (fun ex => ReqBody (fst ex))
      (sent (net (snd (Cloudflare_CreateRecords (Fixture.cloudflareServer 200)
                         Fixture.lib "cf" [AddrZero] Fixture.cfStart))))
  = [None;
     Some [("type", JString "A"); ("name", JString "cf.example.com");
           ("content", JString "invalid IP"); ("ttl", JInt 1);
           ("proxied", JBool false)]].
Proof. repeat split. Qed.



(** ** The two providers side by side *)

Lemma createdRecords_app : forall key l1 l2,
  createdRecords key (l1 ++ l2) =
  (createdRecords key l1 ++ createdRecords key l2)%list.
Proof. intros key l1 l2. unfold createdRecords. apply flat_map_app. Qed.

Lemma createdRecords_requests : forall key (exs : list Exchange) A
    (f : A -> Request) (g : A -> string * string) xs,
  map fst exs = map f xs ->
  (forall x r, createdRecords key [(f x, r)] = [g x]) ->
  createdRecords key exs = map g xs.
Proof.
  intros key exs A f g xs. revert exs.
  induction xs as [|x xs IH]; intros exs Hm Hf.
  - destruct exs; [reflexivity | discriminate].
  - destruct exs as [|[req r] exs]; [discriminate|].
    cbn [map fst] in Hm. inversion Hm; subst.
    change ((f x, r) :: exs) with ([(f x, r)] ++ exs)%list.
    rewrite createdRecords_app, Hf, (IH exs); [reflexivity | assumption..].
Qed.

(** C5 (as amended): for the same subdomain and the same addresses, when
    CreateRecords returns nil for both providers, the record-creation
    requests they sent are equally many and carry the same record types
    for the same addresses in the same order: one per address, in the
    order of the list. *)
Theorem CreateRecords_same_records :
  forall S1 (serve1 : S1 -> Request -> S1 * DoResult)
         S2 (serve2 : S2 -> Request -> S2 * DoResult)
         lib subdomain ips stv stv' stc stc',
    Vercel_CreateRecords serve1 lib subdomain ips stv = (inr tt, stv') ->
    Cloudflare_CreateRecords serve2 lib subdomain ips stc = (inr tt, stc') ->
    exists exv exc,
      sent (net stv') = (sent (net stv) ++ exv)%list /\
      sent (net stc') = (sent (net stc) ++ exc)%list /\
      createdRecords "value" exv = createdRecords "content" exc /\
      createdRecords "value" exv
      = map (fun ip => (if Is6 ip then "AAAA" else "A", Addr_String lib ip)) ips.
Proof.
  intros S1 serve1 S2 serve2 lib subdomain ips stv stv' stc stc' Hv Hc.
  apply Vercel_CreateRecords_ok in Hv. destruct Hv as [_ (exv & Hlv & Hmv)].
  apply Cloudflare_CreateRecords_ok in Hc.
  destruct Hc as (fqdn & st1 & B & _ & exc & Hlc & Hmc).
  pose proof (@buildFQDN_ok _ _ _ _ _ _ _ B) as [G _].
  pose proof (@getZoneName_ok _ _ _ _ _ _ G) as (_ & _ & _ & Hz).
  assert (Ev : createdRecords "value" exv
               = map (fun ip => (if Is6 ip then "AAAA" else "A",
                                 Addr_String lib ip)) ips).
  { eapply createdRecords_requests; [exact Hmv|]. reflexivity. }
  assert (Ec : createdRecords "content" exc
               = map (fun ip => (if Is6 ip then "AAAA" else "A",
                                 Addr_String lib ip)) ips).
  { eapply createdRecords_requests; [exact Hmc|]. reflexivity. }
  exists exv.
  destruct Hz as [[_ ->]|[_ [r Hr]]].
  - exists exc. repeat split; try assumption. congruence.
  - exists ((mkRequest MethodGet (Cloudflare_zoneURL (self stc))
                       (Cloudflare_headers (self stc)) None, r) :: exc).
    split; [exact Hlv|]. split.
    + rewrite Hlc, Hr, <- app_assoc. reflexivity.
    + split; [|exact Ev].
      change (createdRecords "content" (_ :: exc))
        with (createdRecords "content" exc).
      congruence.
Qed.

Lemma CreateRecords_same_records_witness :
  exists stv' stc' exv exc,
    Vercel_CreateRecords Fixture.vercelServer Fixture.lib "cf"
      [Fixture.ip4a; Fixture.ip6a] Fixture.vcStart = (inr tt, stv') /\
    Cloudflare_CreateRecords (Fixture.cloudflareServer 200) Fixture.lib "cf"
      [Fixture.ip4a; Fixture.ip6a] Fixture.cfStart = (inr tt, stc') /\
    sent (net stv') = (sent (net Fixture.vcStart) ++ exv)%list /\
    sent (net stc') = (sent (net Fixture.cfStart) ++ exc)%list /\
    createdRecords "value" exv = createdRecords "content" exc /\
    createdRecords "value" exv = [("A", "192.0.2.1"); ("AAAA", "2001:db8::1")].
Proof.
  eexists. eexists.
  destruct (CreateRecords_same_records
              Fixture.vercelServer (Fixture.cloudflareServer 200) Fixture.lib
              "cf" [Fixture.ip4a; Fixture.ip6a] Fixture.vcStart Fixture.cfStart
              eq_refl eq_refl)
    as (exv & exc & Hv & Hc & E1 & E2).
  exists exv, exc. repeat split; assumption.
Defined.

(** C5 (as stated) fails: against a Cloudflare API that refuses the zone
    lookup, Cloudflare's CreateRecords sends no record-creation request
    for an address for which Vercel's sends one. *)
Lemma CreateRecords_differ_on_failure :
  createdRecords "value"
    (sent (net (snd (Vercel_CreateRecords Fixture.vercelServer Fixture.lib
                       "cf" [Fixture.ip4a] Fixture.vcStart))))
  = [("A", "192.0.2.1")] /\
  createdRecords "content"
    (sent (net (snd (Cloudflare_CreateRecords Fixture.cloudflareDenied
                       Fixture.lib "cf" [Fixture.ip4a] Fixture.cfStart))))
  = [] /\
  fst (Cloudflare_CreateRecords Fixture.cloudflareDenied Fixture.lib "cf"
         [Fixture.ip4a] Fixture.cfStart)
  = inl (wrapError "get zone name: "
           (errorString "cloudflare API error: Authentication error")).
Proof. repeat split. Qed.

(** ** The zone name cache *)

(** C9 (as amended): once a call of getZoneName has returned a non-empty
    name without error, the name is stored in the provider, and from any
    state with that provider every call of getZoneName returns the same
    name and leaves the state as it is (nothing is sent), and buildFQDN
    returns the zone name for the subdomains "" and "@" and
    subdomain + "." + zone name for every other one, also without
    sending anything. *)
Theorem getZoneName_cached :
  forall S (serve : S -> Request -> S * DoResult) lib st name st1,
    getZoneName serve lib st = (inr name, st1) ->
    name <> "" ->
    cf_zoneName (self st1) = name /\
    forall st2,
      self st2 = self st1 ->
      getZoneName serve lib st2 = (inr name, st2) /\
      forall subdomain,
        buildFQDN serve lib subdomain st2 =
        (inr (if (subdomain =? "")%string || (subdomain =? "@")%string
              then name else subdomain ++ "." ++ name), st2).
Proof.
  intros S serve lib st name st1 H Hne.
  pose proof (@getZoneName_ok _ _ _ _ _ _ H) as (_ & _ & Hn & _).
  split; [exact Hn|]. intros st2 Hs.
  assert (G : getZoneName serve lib st2 = (inr name, st2)).
  { rewrite getZoneName_eq, Hs, Hn.
    destruct (String.eqb_spec name "") as [E|E]; [contradiction | reflexivity]. }
  split; [exact G|]. intros subdomain.
  unfold buildFQDN, bind, orReturn. rewrite G.
  destruct ((subdomain =? "")%string || (subdomain =? "@")%string); reflexivity.
Qed.

Lemma getZoneName_cached_witness :
  exists st1,
    getZoneName (Fixture.cloudflareServer 200) Fixture.lib Fixture.cfStart
    = (inr "example.com", st1) /\
    getZoneName (Fixture.cloudflareServer 200) Fixture.lib st1
    = (inr "example.com", st1) /\
    buildFQDN (Fixture.cloudflareServer 200) Fixture.lib "cf" st1
    = (inr "cf.example.com", st1) /\
    buildFQDN (Fixture.cloudflareServer 200) Fixture.lib "@" st1
    = (inr "example.com", st1).
Proof.
  exists (snd (getZoneName (Fixture.cloudflareServer 200) Fixture.lib
                           Fixture.cfStart)).
  assert (H0 : getZoneName (Fixture.cloudflareServer 200) Fixture.lib
                           Fixture.cfStart
               = (inr "example.com",
                  snd (getZoneName (Fixture.cloudflareServer 200) Fixture.lib
                                   Fixture.cfStart)))
    by reflexivity.
  assert (Hne : "example.com" <> "") by discriminate.
  destruct (getZoneName_cached (Fixture.cloudflareServer 200) Fixture.lib
              Fixture.cfStart H0 Hne) as [_ H].
  destruct (H _ eq_refl) as [G B].
  split; [exact H0|].
  split; [exact G|]. split; [exact (B "cf") | exact (B "@")].
Defined.

(** C9 (as stated) fails: when the first successful zone lookup carries
    an empty name, the second call of getZoneName sends another request
    and returns a different name. *)
Lemma getZoneName_empty_name_not_cached :
  fst (getZoneName Fixture.cloudflareUnnamedFirst Fixture.lib Fixture.cfStart)
  = inr "" /\
  fst (getZoneName Fixture.cloudflareUnnamedFirst Fixture.lib
         (snd (getZoneName Fixture.cloudflareUnnamedFirst Fixture.lib
                 Fixture.cfStart)))
  = inr "example.com" /\
  length (sent (net (snd (getZoneName Fixture.cloudflareUnnamedFirst Fixture.lib
                            Fixture.cfStart)))) = 1%nat /\
  length (sent (net (snd (getZoneName Fixture.cloudflareUnnamedFirst Fixture.lib
         (snd (getZoneName Fixture.cloudflareUnnamedFirst Fixture.lib
                 Fixture.cfStart)))))) = 2%nat.
Proof. repeat split. Qed.

(** ** Upload: API failures *)




(** ** Scoring: the claim *)

Section ScoringFacts.

Import Scoring.
Open Scope Q_scope.

Lemma clamp_bounds : forall x lo hi, lo <= hi -> lo <= clamp x lo hi <= hi.
Proof.
  intros x lo hi H. unfold clamp.
  destruct (Qlt_le_dec x lo) as [L|L].
  - split; [apply Qle_refl | exact H].
  - destruct (Qlt_le_dec hi x) as [U|U].
    + split; [exact H | apply Qle_refl].
    + split; assumption.
Qed.

Lemma clamp_id : forall x lo hi, lo <= x <= hi -> clamp x lo hi == x.
Proof.
  intros x lo hi [L U]. unfold clamp.
  destruct (Qlt_le_dec x lo) as [L'|L'].
  - apply Qle_antisym; [exact L | apply Qlt_le_weak; exact L'].
  - destruct (Qlt_le_dec hi x) as [U'|U'].
    + apply Qle_antisym; [apply Qlt_le_weak; exact U' | exact U].
    + reflexivity.
Qed.

Lemma reward_bounds : forall o, 0 <= reward o <= 1.
Proof.
  intros o. unfold reward. destruct (ok o); cbn [negb].
  - apply clamp_bounds. discriminate.
  - split; discriminate.
Qed.

(** C6: the reward is 0 when [ok] is false and otherwise
    [(2000 - t) / 1980] for [t] the total latency clamped to [20, 2000];
    in every case it lies in [0, 1]. *)
Theorem reward_spec : forall o,
  reward o ==
  (if ok o then (2000 - clamp (total_ms o) 20 2000) / 1980 else 0) /\
  0 <= reward o <= 1.
Proof.
  intros o. split; [|apply reward_bounds].
  unfold reward. destruct (ok o); cbn [negb]; [|reflexivity].
  pose proof (@clamp_bounds (total_ms o) t_lo t_hi) as B.
  assert (H : t_lo <= t_hi) by discriminate. specialize (B H).
  unfold t_lo, t_hi in *.
  set (t := clamp (total_ms o) 20 2000) in *.
  rewrite clamp_id.
  - assert (E : 2000 - 20 == 1980) by reflexivity. rewrite E. reflexivity.
  - destruct B as [B1 B2]. split.
    + apply Qle_shift_div_l; [reflexivity|].
      rewrite Qmult_0_l. unfold Qminus. rewrite <- Qle_minus_iff. exact B2.
    + apply Qle_shift_div_r; [reflexivity|].
      rewrite Qmult_1_l. unfold Qminus.
      apply Qplus_le_r. apply Qopp_le_compat. exact B1.
Qed.

End ScoringFacts.

(** ** Beta arms: the claim *)

Section SearchFacts.

Import Scoring Search.
Open Scope Q_scope.

Lemma inject_succ : forall k : nat,
  inject_Z (Z.of_nat (Datatypes.S k)) == inject_Z (Z.of_nat k) + 1.
Proof.
  intros k. rewrite Nat2Z.inj_succ. unfold Z.succ.
  rewrite inject_Z_plus. reflexivity.
Qed.

Lemma update_invariant : forall o a,
  arm_invariant a -> arm_invariant (update o a).
Proof.
  intros o a (Ha & Hb & Ea & Eb).
  pose proof (reward_bounds o) as [R0 R1].
  unfold arm_invariant, sum_one_minus_reward in *. cbn [update alpha beta n sum_reward].
  rewrite inject_succ. repeat split; lra.
Qed.

Lemma update_bounds : forall o a,
  arm_bounds a -> arm_bounds (update o a).
Proof.
  intros o a (Ha & Hb & Ea & Eb).
  pose proof (reward_bounds o) as [R0 R1].
  unfold arm_bounds, sum_one_minus_reward in *. cbn [update alpha beta n sum_reward].
  rewrite inject_succ. repeat split; lra.
Qed.

Lemma child_prior_ge_1 : forall p fanout,
  1 <= p -> 0 <= fanout -> 1 <= child_prior p fanout.
Proof.
  intros p fanout Hp Hf. unfold child_prior.
  assert (H : 0 <= kappa * (p - 1) / fanout).
  { unfold Qdiv. apply Qmult_le_0_compat.
    - apply Qmult_le_0_compat; [discriminate | lra].
    - apply Qinv_le_0_compat. exact Hf. }
  lra.
Qed.

Lemma new_arm_bounds : forall p a0 b0 seqno,
  1 <= a0 -> 1 <= b0 -> arm_bounds (new_arm p a0 b0 seqno).
Proof.
  intros p a0 b0 seqno Ha Hb. unfold arm_bounds, sum_one_minus_reward.
  cbn [new_arm alpha beta n sum_reward].
  assert (E : inject_Z (Z.of_nat 0) - 0 == 0) by reflexivity.
  repeat split; try assumption; rewrite ?E; lra.
Qed.

Lemma new_arm_invariant : forall p seqno, arm_invariant (new_arm p 1 1 seqno).
Proof.
  intros p seqno. unfold arm_invariant, sum_one_minus_reward.
  cbn [new_arm alpha beta n sum_reward].
  repeat split; try discriminate; reflexivity.
Qed.

Lemma children_arms_bounds : forall parent fanout ps seqno,
  arm_bounds parent -> 0 <= fanout ->
  Forall arm_bounds (children_arms parent fanout ps seqno).
Proof.
  intros parent fanout ps. induction ps as [|p ps IH]; intros seqno Hp Hf; simpl.
  - constructor.
  - destruct Hp as (Ha & Hb & Hrest). constructor.
    + apply new_arm_bounds; apply child_prior_ge_1; assumption.
    + apply IH; [repeat split; tauto | exact Hf].
Qed.

Lemma remove_birth_Forall : forall (P : Arm -> Prop) seqno l,
  Forall P l -> Forall P (remove_birth seqno l).
Proof.
  intros P seqno l H. induction H as [|a l Ha Hl IH]; simpl.
  - constructor.
  - destruct (birth a =? seqno)%nat; [exact Hl | constructor; assumption].
Qed.

Lemma evict_one_Forall : forall (P : Arm -> Prop) l,
  Forall P l -> Forall P (evict_one l).
Proof.
  intros P [|a l] H; [constructor|]. unfold evict_one.
  apply remove_birth_Forall. exact H.
Qed.

Lemma evict_Forall : forall (P : Arm -> Prop) capacity l,
  Forall P l -> Forall P (evict capacity l).
Proof.
  intros P capacity l H. unfold evict.
  induction (length l - capacity)%nat as [|k IH]; simpl.
  - exact H.
  - apply evict_one_Forall. exact IH.
Qed.

Lemma split_arm_bounds : forall cfg a next l l' next',
  arm_bounds a -> Forall arm_bounds l ->
  split_arm cfg a next l = Some (l', next') ->
  Forall arm_bounds l'.
Proof.
  intros cfg a next l l' next' Ha Hl H. unfold split_arm in H.
  destruct (split cfg (prefix a) (split_step cfg (prefix a))) as [ps|];
    [|discriminate].
  inversion H; subst. apply Forall_app. split.
  - apply remove_birth_Forall. exact Hl.
  - apply children_arms_bounds; [exact Ha|].
    change 0 with (inject_Z 0). rewrite <- Zle_Qle. apply Nat2Z.is_nonneg.
Qed.

Lemma find_arm_In : forall seqno l a, find_arm seqno l = Some a -> In a l.
Proof.
  intros seqno l a H. unfold find_arm in H. apply find_some in H. tauto.
Qed.

Lemma ingest_head_bounds : forall cfg threshold seqno o next h,
  Forall arm_bounds (beam h) ->
  Forall arm_bounds (beam (fst (ingest_head cfg threshold seqno o next h))).
Proof.
  intros cfg threshold seqno o next h H. unfold ingest_head.
  set (updated := map _ (beam h)).
  assert (Hu : Forall arm_bounds updated).
  { subst updated. apply Forall_map. eapply Forall_impl; [|exact H].
    intros a Ha. destruct (birth a =? seqno)%nat;
      [apply update_bounds|]; exact Ha. }
  destruct (find_arm seqno updated) as [a|] eqn:F; [|exact Hu].
  destruct (split_check cfg threshold _ a); [|exact Hu].
  destruct (split_arm cfg a next updated) as [[beam' next']|] eqn:Sp;
    [|exact Hu].
  cbn [fst beam]. apply evict_Forall.
  apply (@split_arm_bounds cfg a next updated beam' next');
    [|exact Hu|exact Sp].
  apply find_arm_In in F. rewrite Forall_forall in Hu. exact (Hu a F).
Qed.

Lemma ingest_heads_bounds : forall cfg threshold seqno o hs hi next,
  Forall (fun h => Forall arm_bounds (beam h)) hs ->
  Forall (fun h => Forall arm_bounds (beam h))
         (fst (ingest_heads cfg threshold hi seqno o next hs)).
Proof.
  intros cfg threshold seqno o. induction hs as [|h hs IH]; intros hi next H.
  - cbn. constructor.
  - inversion H as [|? ? Hh Hhs]; subst. destruct hi as [|hi]; cbn [ingest_heads].
    + pose proof (@ingest_head_bounds cfg threshold seqno o next h Hh) as Hi.
      destruct (ingest_head cfg threshold seqno o next h) as [h' next'].
      constructor; assumption.
    + specialize (IH hi next Hhs).
      destruct (ingest_heads cfg threshold hi seqno o next hs) as [hs'' next'].
      constructor; assumption.
Qed.

Lemma seed_arms_invariant : forall roots seqno,
  Forall arm_invariant (seed_arms roots seqno).
Proof.
  induction roots as [|p roots IH]; intros seqno; simpl; constructor.
  - apply new_arm_invariant.
  - apply IH.
Qed.

Lemma invariant_bounds : forall a, arm_invariant a -> arm_bounds a.
Proof.
  intros a (Ha & Hb & Ea & Eb). repeat split; try assumption.
  - rewrite Ea. apply Qle_refl.
  - rewrite Eb. apply Qle_refl.
Qed.

Lemma init_bounds : forall nheads roots, all_arms arm_bounds (init nheads roots).
Proof.
  intros nheads roots. unfold all_arms, init. cbn [heads].
  generalize 0%nat. induction nheads as [|k IH]; intros seqno; simpl;
    constructor.
  - cbn [beam]. eapply Forall_impl; [|apply seed_arms_invariant].
    apply invariant_bounds.
  - apply IH.
Qed.


End SearchFacts.



(** * Further properties of the package *)

(** ** Upload as a whole *)

Lemma perform_all_succeeded : forall W (provider : Provider W) cs w,
  Forall succeeded (perform provider cs w) ->
  perform provider cs w = map (fun c => (c, inr tt)) cs.
Proof.
  intros W provider. induction cs as [|c cs IH]; intros w H; simpl in *.
  - reflexivity.
  - destruct (runCall provider c w) as [[e|[]] w'].
    + inversion H as [|? ? Hx _]; subst. discriminate Hx.
    + inversion H as [|? ? _ Hr]; subst. rewrite (IH _ Hr). reflexivity.
Qed.

(** X1: [Upload] returns nil exactly when every provider call it made
    returned nil, and then it has made all its planned calls: none is
    skipped in a run that succeeds. *)
Theorem Upload_nil_iff_all_calls :
  forall W (provider : Provider W) subdomain ips verbose st,
    let tr := perform provider (planned_calls subdomain ips) (world st) in
    (fst (Upload provider subdomain ips verbose st) = inr tt <->
     Forall succeeded tr) /\
    (Forall succeeded tr ->
     tr = map (fun c => (c, inr tt)) (planned_calls subdomain ips)).
Proof.
  intros W provider subdomain ips verbose st tr.
  pose proof (proj2 (Upload_run provider subdomain ips verbose st)) as Ho.
  cbv zeta in Ho. fold tr in Ho. split; [split|].
  - intros E. rewrite E in Ho. exact Ho.
  - intros Hs.
    destruct (fst (Upload provider subdomain ips verbose st)) as [err|[]];
      [|reflexivity].
    destruct Ho as (pre & c & e & prefix & Et & _).
    rewrite Et in Hs. apply Forall_app in Hs. destruct Hs as [_ Hs].
    inversion Hs as [|? ? Hx _]; subst. discriminate Hx.
  - apply perform_all_succeeded.
Qed.

Lemma filter_split_Permutation : forall A (f : A -> bool) l,
  Permutation (filter f l ++ filter (fun x => negb (f x)) l) l.
Proof.
  intros A f. induction l as [|a l IH]; simpl.
  - constructor.
  - destruct (f a); simpl.
    + constructor. exact IH.
    + apply Permutation_sym, Permutation_cons_app, Permutation_sym. exact IH.
Qed.

Lemma planned_createdAddrs : forall subdomain ips,
  flat_map createdAddrs
           (map (fun c => (c, inr tt : error + unit))
                (planned_calls subdomain ips))
  = (filter Is4 ips ++ filter (fun ip => negb (Is4 ip)) ips)%list.
Proof.
  intros subdomain ips. unfold planned_calls.
  destruct (filter Is4 ips) as [|a4 v4];
    destruct (filter (fun ip => negb (Is4 ip)) ips) as [|a6 v6];
    cbn [app map flat_map createdAddrs fst]; rewrite ?app_nil_r; reflexivity.
Qed.

(** X2: when [Upload] returns nil, the address lists it handed to
    CreateRecords, taken together, are the caller's addresses: each
    address exactly once, the IPv4 addresses first and each family in
    the order of the caller's list. *)
Theorem Upload_creates_every_address :
  forall W (provider : Provider W) subdomain ips verbose st,
    fst (Upload provider subdomain ips verbose st) = inr tt ->
    exists tr,
      calls (snd (Upload provider subdomain ips verbose st))
      = (calls st ++ tr)%list /\
      flat_map createdAddrs tr
      = (filter Is4 ips ++ filter (fun ip => negb (Is4 ip)) ips)%list /\
      Permutation (flat_map createdAddrs tr) ips.
Proof.
  intros W provider subdomain ips verbose st H.
  pose proof (Upload_run provider subdomain ips verbose st) as [Hc Ho].
  cbv zeta in Hc, Ho. rewrite H in Ho. cbn [upload_outcome] in Ho.
  apply perform_all_succeeded in Ho.
  exists (perform provider (planned_calls subdomain ips) (world st)).
  split; [exact Hc|]. rewrite Ho, planned_createdAddrs.
  split; [reflexivity | apply filter_split_Permutation].
Qed.

Lemma Upload_creates_every_address_witness :
  exists tr,
    calls (snd (Upload (VercelImpl Fixture.vercelServer Fixture.lib) "cf"
                       [Fixture.ip6a; Fixture.ip4a] false
                       (Fixture.start Fixture.vcStart)))
    = ([] ++ tr)%list /\
    flat_map createdAddrs tr = [Fixture.ip4a; Fixture.ip6a] /\
    Permutation (flat_map createdAddrs tr) [Fixture.ip6a; Fixture.ip4a].
Proof.
  destruct (Upload_creates_every_address
              (VercelImpl Fixture.vercelServer Fixture.lib) "cf"
              [Fixture.ip6a; Fixture.ip4a] false
              (Fixture.start Fixture.vcStart) eq_refl) as (tr & Hc & Hf & Hp).
  exists tr. split; [exact Hc|]. split; [exact Hf | exact Hp].
Defined.

(** X3: the [verbose] flag changes nothing but what is written to
    stderr: result, provider state and provider calls are the same with
    and without it, and without it nothing is written. *)
Theorem Upload_verbose_only_stderr :
  forall W (provider : Provider W) subdomain ips st,
    let loud := Upload provider subdomain ips true st in
    let quiet := Upload provider subdomain ips false st in
    fst loud = fst quiet /\
    world (snd loud) = world (snd quiet) /\
    calls (snd loud) = calls (snd quiet) /\
    stderr (snd quiet) = stderr st.
Proof.
  intros W provider subdomain ips st. cbv zeta. unfold Upload.
  destruct (len ips =? 0); [repeat split|].
  destruct (separate ips [] []) as [v4 v6].
  unfold bind, orReturn, invoke, when_, Fprintf_Stderr, ret.
  destruct st as [w cs err].
  destruct (len v4 >? 0); destruct (len v6 >? 0);
    cbn [runCall world calls stderr fst snd];
    repeat match goal with
    | |- context [DeleteRecords provider ?s ?b ?w0] =>
        destruct (DeleteRecords provider s b w0) as [[?e|[]] ?w];
        cbn [runCall world calls stderr fst snd]
    | |- context [CreateRecords provider ?s ?l ?w0] =>
        destruct (CreateRecords provider s l w0) as [[?e|[]] ?w];
        cbn [runCall world calls stderr fst snd]
    end;
    repeat split.
Qed.

Lemma forallb_filter_true : forall A (f : A -> bool) l,
  forallb f (filter f l) = true.
Proof.
  intros A f. induction l as [|a l IH]; simpl; [reflexivity|].
  destruct (f a) eqn:E; simpl; [rewrite E|]; exact IH.
Qed.

Lemma filter_head : forall A (f : A -> bool) l a l',
  filter f l = a :: l' -> f a = true.
Proof.
  intros A f l a l' H.
  assert (Hin : In a (filter f l)) by (rewrite H; left; reflexivity).
  apply filter_In in Hin. tauto.
Qed.

(** X4: when [Upload] returns an error, the error is the error of the
    provider call that failed, wrapped under the prefix of its step
    ("delete A records: ", "create A records: ", "delete AAAA records: "
    or "create AAAA records: "), that call is the last one made, and the
    text of the error is the prefix followed by the text of the
    provider's error. *)
Theorem Upload_error_prefix :
  forall W (provider : Provider W) subdomain ips verbose st err,
    fst (Upload provider subdomain ips verbose st) = inl err ->
    exists pre c e,
      perform provider (planned_calls subdomain ips) (world st)
      = (pre ++ [(c, inl e)])%list /\
      err = wrapError (uploadPrefix c) e /\
      Error err = uploadPrefix c ++ Error e /\
      In (uploadPrefix c)
         ["delete A records: "; "create A records: ";
          "delete AAAA records: "; "create AAAA records: "].
Proof.
  intros W provider subdomain ips verbose st err. unfold Upload, planned_calls.
  rewrite len_zero, separate_filter. simpl app.
  destruct ips as [|ip0 ips0]; [discriminate|].
  set (ips := ip0 :: ips0).
  destruct (filter Is4 ips) as [|a4 v4] eqn:E4;
    destruct (filter (fun ip => negb (Is4 ip)) ips) as [|a6 v6] eqn:E6.
  all: rewrite !len_pos.
  all: unfold bind, orReturn, invoke, when_, Fprintf_Stderr, ret.
  all: destruct st as [w cs errs].
  all: assert (H4 : forall a l, filter Is4 ips = a :: l ->
                      forallb Is4 (a :: l) = true)
         by (intros a l <-; apply forallb_filter_true).
  all: assert (H6 : forall a l,
                      filter (fun ip => negb (Is4 ip)) ips = a :: l ->
                      forallb Is4 (a :: l) = false)
         by (intros a l Hf; apply filter_head in Hf; cbn [forallb];
             destruct (Is4 a); [discriminate | reflexivity]).
  all: first [specialize (H4 _ _ E4) | clear H4].
  all: first [specialize (H6 _ _ E6) | clear H6].
  all: destruct verbose;
    cbn [perform runCall world calls stderr fst snd app];
    repeat match goal with
    | |- context [DeleteRecords ?p ?s ?b ?w0] =>
        destruct (DeleteRecords p s b w0) as [[?e|[]] ?w];
        cbn [perform runCall world calls stderr fst snd app]
    | |- context [CreateRecords ?p ?s ?l ?w0] =>
        destruct (CreateRecords p s l w0) as [[?e|[]] ?w];
        cbn [perform runCall world calls stderr fst snd app]
    end;
    intros Herr; inversion Herr; subst.
  all: first
    [ eexists [], _, _; split; [reflexivity|]
    | eexists [_], _, _; split; [reflexivity|]
    | eexists [_; _], _, _; split; [reflexivity|]
    | eexists [_; _; _], _, _; split; [reflexivity|] ].
  all: unfold uploadPrefix; rewrite ?H4, ?H6; cbn [negb recordTypeOf].
  all: split; [reflexivity|]; split; [reflexivity|]; cbn; tauto.
Qed.

Lemma Upload_error_prefix_witness :
  exists pre e,
    perform (VercelImpl Fixture.vercelReadOnly Fixture.lib)
            (planned_calls "cf" [Fixture.ip6a])
            (Fixture.vcStart)
    = (pre ++ [(CallCreate "cf" [Fixture.ip6a], inl e)])%list /\
    Error e = "create record for 2001:db8::1: vercel API error: Not authorized".
Proof.
  destruct (Upload_error_prefix
              (VercelImpl Fixture.vercelReadOnly Fixture.lib) "cf"
              [Fixture.ip6a] false (Fixture.start Fixture.vcStart)
              (err := wrapError "create AAAA records: "
                        (wrapError "create record for 2001:db8::1: "
                           (errorString "vercel API error: Not authorized")))
              eq_refl) as (pre & c & e & Hp & He & _).
  inversion He; subst. 
  assert (Hc : c = CallCreate "cf" [Fixture.ip6a]).
  { vm_compute in Hp. destruct pre as [|x [|y pre]]; cbn in Hp;
      inversion Hp; try reflexivity.
    destruct pre; discriminate. }
  subst c. exists pre. eexists. split; [exact Hp | reflexivity].
Defined.

(** ** What the clients send, whatever the server answers *)

Section SendsOnlyRules.

Variable St : Type.
Variable logOf : St -> list Exchange.
Variable Inv : St -> Prop.
Variable allowed : Exchange -> Prop.

Local Abbreviation only := (sends_only logOf Inv allowed).

Lemma only_silent : forall A (c : M St A),
  (forall st, Inv st -> Inv (snd (c st)) /\ logOf (snd (c st)) = logOf st) ->
  only c.
Proof.
  intros A c H st Hi. destruct (H st Hi) as [Hi' Hl]. split; [exact Hi'|].
  exists []. rewrite app_nil_r. split; [exact Hl | constructor].
Qed.

Lemma only_ret : forall A (a : A), only (ret a).
Proof. intros A a. apply only_silent. intros st Hi. now split. Qed.

Lemma only_fail : forall A e, only (@fail St A e).
Proof. intros A e. apply only_silent. intros st Hi. now split. Qed.

Lemma only_liftE : forall A (r : error + A), only (liftE r).
Proof. intros A [e|a]; [apply only_fail | apply only_ret]. Qed.

Lemma only_bind : forall A B (c : M St A) (k : A -> M St B),
  only c -> (forall a, only (k a)) -> only (bind c k).
Proof.
  intros A B c k Hc Hk st Hi. unfold bind.
  destruct (Hc st Hi) as [Hi1 (exs1 & Hl1 & Hf1)].
  destruct (c st) as [[e|a] s1]; cbn [fst snd] in *.
  - split; [exact Hi1|]. exists exs1. split; assumption.
  - destruct (Hk a s1 Hi1) as [Hi2 (exs2 & Hl2 & Hf2)].
    split; [exact Hi2|]. exists (exs1 ++ exs2)%list. split.
    + rewrite Hl2, Hl1, app_assoc. reflexivity.
    + apply Forall_app. split; assumption.
Qed.

Lemma only_orReturn : forall A (c : M St A) f, only c -> only (orReturn c f).
Proof.
  intros A c f Hc st Hi. unfold orReturn.
  destruct (Hc st Hi) as [Hi1 H]. destruct (c st) as [[e|a] s1]; split; assumption.
Qed.

Lemma only_forRange : forall A (body : A -> M St unit) xs,
  (forall x, only (body x)) -> only (forRange xs body).
Proof.
  intros A body xs Hb. induction xs as [|x xs IH]; simpl.
  - apply only_ret.
  - apply only_bind; [apply Hb | intros _; exact IH].
Qed.

Lemma only_when : forall b (c : M St unit), only c -> only (when_ b c).
Proof. intros [|] c Hc; [exact Hc | apply only_ret]. Qed.

Lemma only_ext : forall A (c c' : M St A),
  (forall st, c st = c' st) -> only c' -> only c.
Proof. intros A c c' E H st Hi. rewrite E. exact (H st Hi). Qed.

End SendsOnlyRules.

Section ProviderSends.

Variable S : Type.
Variable serve : S -> Request -> S * DoResult.
Variable lib : GoLib.

Local Abbreviation State := (State S).

Lemma only_roundTripThen : forall P (IP : P -> Prop) allowed A
    (mk : P -> error + Request) (handle : Response -> error + A)
    (upd : P -> A -> P),
  (forall p a, IP p -> IP (upd p a)) ->
  (forall p req dr, IP p -> mk p = inr req -> allowed (req, dr)) ->
  sends_only (@netLog S P) (fun st => IP (self st)) allowed
             (roundTripThen serve mk handle upd).
Proof.
  intros P IP allowed A mk handle upd Hupd Hok st Hi.
  unfold roundTripThen, roundTrip.
  destruct (mk (self st)) as [e|req] eqn:Hmk.
  - cbn [fst snd]. split; [exact Hi|]. exists []. unfold netLog.
    rewrite app_nil_r. split; [reflexivity | constructor].
  - destruct (serve (srv (net st)) req) as [s' dr] eqn:Hs.
    destruct (match dr with inl e => inl e | inr resp => handle resp end)
      as [e|a]; cbn [fst snd self net].
    + split; [exact Hi|]. exists [(req, dr)]. split; [reflexivity|].
      constructor; [|constructor]. apply (Hok _ _ _ Hi Hmk).
    + split; [apply Hupd; exact Hi|]. exists [(req, dr)].
      split; [reflexivity|].
      constructor; [|constructor]. apply (Hok _ _ _ Hi Hmk).
Qed.

(** *** Vercel: the provider struct stays [p] and only the listing,
    deletion and creation requests of [p] are sent. *)

Variable vp : VercelProvider.
Variable vAllowed : Exchange -> Prop.

Local Abbreviation vercelOnly :=
  (sends_only (@netLog S VercelProvider) (fun st => self st = vp) vAllowed).

Lemma Vercel_listRecords_only :
  (forall dr, vAllowed (Vercel_listRequest lib vp, dr)) ->
  vercelOnly (Vercel_listRecords serve lib).
Proof.
  intros Hq. eapply only_ext.
  - intros st. rewrite Vercel_listRecords_eq.
    apply (roundTripThen_id serve
             (fun p => Vercel_request lib p MethodGet (Vercel_listURL lib p) None)).
  - apply (only_roundTripThen (fun p : VercelProvider => p = vp)).
    + trivial.
    + intros p req dr -> Hreq. apply Vercel_request_inv in Hreq. subst req.
      apply Hq.
Qed.

Lemma Vercel_deleteRecord_only : forall recordID,
  (forall dr, vAllowed (Vercel_deleteRequest lib vp recordID, dr)) ->
  vercelOnly (Vercel_deleteRecord serve lib recordID).
Proof.
  intros recordID Hq. eapply only_ext.
  - intros st. rewrite Vercel_deleteRecord_eq.
    apply (roundTripThen_id serve
             (fun p => Vercel_request lib p MethodDelete
                         (Vercel_deleteURL lib p recordID) None)).
  - apply (only_roundTripThen (fun p : VercelProvider => p = vp)).
    + trivial.
    + intros p req dr -> Hreq. apply Vercel_request_inv in Hreq. subst req.
      apply Hq.
Qed.

Lemma Vercel_createRecord_only : forall name recordType value,
  (forall dr, vAllowed (Vercel_createRequest lib vp name recordType value, dr)) ->
  vercelOnly (Vercel_createRecord serve lib name recordType value).
Proof.
  intros name recordType value Hq. eapply only_ext.
  - intros st. rewrite Vercel_createRecord_eq.
    apply (roundTripThen_id serve
             (fun p => Vercel_request lib p MethodPost (Vercel_createURL lib p)
                         (Some (Vercel_createPayload name recordType value)))).
  - apply (only_roundTripThen (fun p : VercelProvider => p = vp)).
    + trivial.
    + intros p req dr -> Hreq. apply Vercel_request_inv in Hreq. subst req.
      apply Hq.
Qed.

Lemma Vercel_DeleteRecords_only : forall subdomain ipv6,
  (forall dr, vAllowed (Vercel_listRequest lib vp, dr)) ->
  (forall recordID dr, vAllowed (Vercel_deleteRequest lib vp recordID, dr)) ->
  vercelOnly (Vercel_DeleteRecords serve lib subdomain ipv6).
Proof.
  intros subdomain ipv6 Hl Hd. unfold Vercel_DeleteRecords.
  apply only_bind; [apply Vercel_listRecords_only; exact Hl|].
  intros records. apply only_forRange. intros rec.
  destruct (_ && _); [|apply only_ret].
  apply only_orReturn, Vercel_deleteRecord_only. apply Hd.
Qed.

Lemma Vercel_CreateRecords_only : forall subdomain ips,
  (forall recordType value dr,
     vAllowed (Vercel_createRequest lib vp subdomain recordType value, dr)) ->
  vercelOnly (Vercel_CreateRecords serve lib subdomain ips).
Proof.
  intros subdomain ips Hc. unfold Vercel_CreateRecords.
  apply only_forRange. intros ip.
  apply only_orReturn, Vercel_createRecord_only. apply Hc.
Qed.

End ProviderSends.

Section CloudflareSends.

Variable S : Type.
Variable serve : S -> Request -> S * DoResult.
Variable lib : GoLib.

Local Abbreviation State := (State S).

(** The token and zone id of the provider, under any invariant [cIP] of
    the provider struct that fixes them; [p0] stands for the provider in
    the requests, which depend on the token and the zone id only. *)
Variable token zoneID : string.
Variable cIP : CloudflareProvider -> Prop.
Variable cAllowed : Exchange -> Prop.

Local Abbreviation p0 := (mkCloudflareProvider token zoneID "").
Local Abbreviation cloudflareOnly :=
  (sends_only (@netLog S CloudflareProvider) (fun st => cIP (self st)) cAllowed).

Hypothesis cIP_fixes : forall p, cIP p -> cf_token p = token /\ cf_zoneID p = zoneID.

Lemma Cloudflare_request_p0 : forall p method (url : CloudflareProvider -> string)
    body req,
  cIP p ->
  (forall q, cf_zoneID q = zoneID -> url q = url p0) ->
  Cloudflare_request lib p method (url p) body = inr req ->
  req = mkRequest method (url p0) (Cloudflare_headers p0) body.
Proof.
  intros p method url body req Hp Hu Hreq.
  apply Cloudflare_request_inv in Hreq. subst req.
  destruct (cIP_fixes Hp) as [Ht Hz].
  rewrite (Hu p Hz). unfold Cloudflare_headers. rewrite Ht. reflexivity.
Qed.

Lemma Cloudflare_listRecords_only : forall name recordType,
  (forall dr, cAllowed (Cloudflare_listRequest p0 name recordType, dr)) ->
  cloudflareOnly (Cloudflare_listRecords serve lib name recordType).
Proof.
  intros name recordType Hq. eapply only_ext.
  - intros st. rewrite Cloudflare_listRecords_eq.
    apply (roundTripThen_id serve
             (fun p => Cloudflare_request lib p MethodGet
                         (Cloudflare_listURL p name recordType) None)).
  - apply (only_roundTripThen serve cIP).
    + trivial.
    + intros p req dr Hp Hreq.
      apply Cloudflare_request_p0 with
        (url := fun q => Cloudflare_listURL q name recordType) in Hreq;
        [subst req; apply Hq | exact Hp |].
      intros q Hz. unfold Cloudflare_listURL. rewrite Hz. reflexivity.
Qed.

Lemma Cloudflare_deleteRecord_only : forall recordID,
  (forall dr, cAllowed (Cloudflare_deleteRequest p0 recordID, dr)) ->
  cloudflareOnly (Cloudflare_deleteRecord serve lib recordID).
Proof.
  intros recordID Hq. eapply only_ext.
  - intros st. rewrite Cloudflare_deleteRecord_eq.
    apply (roundTripThen_id serve
             (fun p => Cloudflare_request lib p MethodDelete
                         (Cloudflare_deleteURL p recordID) None)).
  - apply (only_roundTripThen serve cIP).
    + trivial.
    + intros p req dr Hp Hreq.
      apply Cloudflare_request_p0 with
        (url := fun q => Cloudflare_deleteURL q recordID) in Hreq;
        [subst req; apply Hq | exact Hp |].
      intros q Hz. unfold Cloudflare_deleteURL. rewrite Hz. reflexivity.
Qed.

Lemma Cloudflare_createRecord_only : forall name recordType content,
  (forall dr,
     cAllowed (Cloudflare_createRequest p0 name recordType content, dr)) ->
  cloudflareOnly (Cloudflare_createRecord serve lib name recordType content).
Proof.
  intros name recordType content Hq. eapply only_ext.
  - intros st. rewrite Cloudflare_createRecord_eq.
    apply (roundTripThen_id serve
             (fun p => Cloudflare_request lib p MethodPost
                         (Cloudflare_createURL p)
                         (Some (Cloudflare_createPayload name recordType content)))).
  - apply (only_roundTripThen serve cIP).
    + trivial.
    + intros p req dr Hp Hreq.
      apply Cloudflare_request_p0 with
        (url := Cloudflare_createURL) in Hreq;
        [subst req; apply Hq | exact Hp |].
      intros q Hz. unfold Cloudflare_createURL. rewrite Hz. reflexivity.
Qed.

(** Either the zone name is cached under [cIP], or [cIP] does not depend
    on it and the zone lookup is allowed. *)
Hypothesis zone_case :
  (forall p, cIP p -> cf_zoneName p <> "") \/
  ((forall p name, cIP p ->
      cIP (mkCloudflareProvider (cf_token p) (cf_zoneID p) name)) /\
   (forall dr, cAllowed (Cloudflare_zoneRequest p0, dr))).

Lemma getZoneName_only : cloudflareOnly (getZoneName serve lib).
Proof.
  intros st Hi. rewrite getZoneName_eq.
  destruct (String.eqb_spec (cf_zoneName (self st)) "") as [E|E]; cbn [negb].
  - destruct zone_case as [Hc|[Hk Hq]]; [destruct (Hc _ Hi E)|].
    refine (@only_roundTripThen S serve CloudflareProvider cIP cAllowed string
              (fun p => Cloudflare_request lib p MethodGet
                          (Cloudflare_zoneURL p) None)
              (Cloudflare_handle (Unmarshal_cfZone lib) cfZoneSuccess
                                 cfZoneErrors cfZoneResultName)
              (fun p name => mkCloudflareProvider (cf_token p) (cf_zoneID p) name)
              _ _ st Hi).
    + intros p a Hp. apply Hk. exact Hp.
    + intros p req dr Hp Hreq.
      apply Cloudflare_request_p0 with
        (url := Cloudflare_zoneURL) in Hreq;
        [subst req; apply Hq | exact Hp |].
      intros q Hz. unfold Cloudflare_zoneURL. rewrite Hz. reflexivity.
  - exact (only_ret (@netLog S CloudflareProvider) (fun s => cIP (self s))
             cAllowed (cf_zoneName (self st)) st Hi).
Qed.

Lemma buildFQDN_only : forall subdomain,
  cloudflareOnly (buildFQDN serve lib subdomain).
Proof.
  intros subdomain. unfold buildFQDN.
  apply only_bind; [apply only_orReturn, getZoneName_only|].
  intros zoneName. destruct (_ || _); apply only_ret.
Qed.

Lemma Cloudflare_DeleteRecords_only : forall subdomain ipv6,
  (forall name recordType dr,
     cAllowed (Cloudflare_listRequest p0 name recordType, dr)) ->
  (forall recordID dr, cAllowed (Cloudflare_deleteRequest p0 recordID, dr)) ->
  cloudflareOnly (Cloudflare_DeleteRecords serve lib subdomain ipv6).
Proof.
  intros subdomain ipv6 Hl Hd. unfold Cloudflare_DeleteRecords.
  apply only_bind; [apply buildFQDN_only|]. intros fqdn.
  apply only_bind; [apply Cloudflare_listRecords_only; apply Hl|].
  intros records. apply only_forRange. intros rec.
  apply only_orReturn, Cloudflare_deleteRecord_only. apply Hd.
Qed.

Lemma Cloudflare_CreateRecords_only : forall subdomain ips,
  (forall name recordType content dr,
     cAllowed (Cloudflare_createRequest p0 name recordType content, dr)) ->
  cloudflareOnly (Cloudflare_CreateRecords serve lib subdomain ips).
Proof.
  intros subdomain ips Hc. unfold Cloudflare_CreateRecords.
  apply only_bind; [apply buildFQDN_only|]. intros fqdn.
  apply only_forRange. intros ip.
  apply only_orReturn, Cloudflare_createRecord_only. apply Hc.
Qed.

End CloudflareSends.

Section UploadSends.

Variable W : Type.
Variable provider : Provider W.
Variable lg : W -> list Exchange.
Variable Inv : W -> Prop.
Variable allowed : Exchange -> Prop.

Hypothesis DeleteRecords_only : forall subdomain ipv6,
  sends_only lg Inv allowed (DeleteRecords provider subdomain ipv6).
Hypothesis CreateRecords_only : forall subdomain ips,
  sends_only lg Inv allowed (CreateRecords provider subdomain ips).

Lemma invoke_only : forall c,
  sends_only (uploadLog lg) (uploadInv Inv) allowed (invoke provider c).
Proof.
  intros c st Hi. unfold invoke, uploadLog, uploadInv in *.
  assert (Hc : sends_only lg Inv allowed (runCall provider c)).
  { destruct c; [apply DeleteRecords_only | apply CreateRecords_only]. }
  specialize (Hc (world st) Hi).
  destruct (runCall provider c (world st)) as [r w']. exact Hc.
Qed.

Lemma Fprintf_Stderr_only : forall line,
  sends_only (uploadLog lg) (uploadInv Inv) allowed (@Fprintf_Stderr W line).
Proof.
  intros line. apply only_silent. intros st Hi. split; [exact Hi | reflexivity].
Qed.

Lemma Upload_only : forall subdomain ips verbose,
  sends_only (uploadLog lg) (uploadInv Inv) allowed
             (Upload provider subdomain ips verbose).
Proof.
  intros subdomain ips verbose. unfold Upload.
  destruct (len ips =? 0); [apply only_ret|].
  destruct (separate ips [] []) as [v4 v6].
  repeat first
    [ apply only_ret
    | apply only_when
    | apply Fprintf_Stderr_only
    | apply only_orReturn
    | apply invoke_only
    | apply only_bind; [|intros _]
    | match goal with |- context [if ?b then _ else _] => destruct b end ].
Qed.

End UploadSends.

(** ** Where the requests go and what they carry *)

Lemma prefix_refl : forall a : string, String.prefix a a = true.
Proof.
  induction a as [|c a IH]; simpl; [reflexivity|].
  destruct (ascii_dec c c) as [_|N]; [exact IH | contradiction].
Qed.

Lemma prefix_append_same : forall a b c : string,
  String.prefix (a ++ b) (a ++ c) = String.prefix b c.
Proof.
  induction a as [|x a IH]; intros b c; simpl; [reflexivity|].
  destruct (ascii_dec x x) as [_|N]; [apply IH | contradiction].
Qed.

Lemma prefix_append_r : forall a b c : string,
  String.prefix a b = true -> String.prefix a (b ++ c) = true.
Proof.
  induction a as [|x a IH]; intros b c H.
  - destruct b; [destruct c|]; reflexivity.
  - destruct b as [|y b]; [discriminate|]. simpl in *.
    destruct (ascii_dec x y); [apply IH; exact H | discriminate].
Qed.

Lemma prefix_self_append : forall a b : string, String.prefix a (a ++ b) = true.
Proof. intros a b. apply prefix_append_r, prefix_refl. Qed.

Lemma Vercel_buildURL_prefix : forall lib p path,
  String.prefix "/" path = true ->
  String.prefix (vercelAPIBase ++ "/") (Vercel_buildURL lib p path) = true.
Proof.
  intros lib p path H. unfold Vercel_buildURL.
  assert (B : String.prefix (vercelAPIBase ++ "/") (vercelAPIBase ++ path) = true)
    by (rewrite prefix_append_same; exact H).
  destruct (negb (vc_teamID p =? "")%string); [|exact B].
  destruct (strings_Contains _ _); apply prefix_append_r; exact B.
Qed.

Lemma zone_suffix_prefix : forall zoneID suffix,
  String.prefix (cloudflareAPIBase ++ "/zones/" ++ zoneID)
                (cloudflareAPIBase ++ "/zones/" ++ zoneID ++ suffix) = true.
Proof.
  intros zoneID suffix. rewrite !prefix_append_same. apply prefix_self_append.
Qed.

Lemma zone_suffix_neq : forall zoneID c suffix,
  cloudflareAPIBase ++ "/zones/" ++ zoneID ++ String c suffix
  <> cloudflareAPIBase ++ "/zones/" ++ zoneID.
Proof.
  intros zoneID c suffix H.
  apply append_cancel_l in H. apply append_cancel_l in H.
  rewrite <- (append_nil_r zoneID) in H at 2.
  apply append_cancel_l in H. discriminate.
Qed.

(** X5: whatever the server answers and however the run ends, every
    request [Upload] sends through the Vercel provider carries the
    provider's bearer token and the JSON content type and goes to a URL
    under https://api.vercel.com/, and the provider struct (token,
    domain, team id) is unchanged at the end. *)
Theorem Upload_vercel_requests :
  forall S (serve : S -> Request -> S * DoResult) lib subdomain ips verbose st,
    let out := Upload (VercelImpl serve lib) subdomain ips verbose st in
    self (world (snd out)) = self (world st) /\
    exists exs,
      sent (net (world (snd out))) = (sent (net (world st)) ++ exs)%list /\
      Forall (vercelRequestOf (self (world st))) exs.
Proof.
  intros S serve lib subdomain ips verbose st. cbv zeta.
  set (p := self (world st)).
  assert (Hq : forall method url body dr,
             String.prefix (vercelAPIBase ++ "/") url = true ->
             vercelRequestOf p (mkRequest method url (Vercel_headers p) body, dr)).
  { intros method url body dr Hu. split; [reflexivity | exact Hu]. }
  refine (@Upload_only _ (VercelImpl serve lib) (@netLog S VercelProvider)
            (fun s => self s = p) (vercelRequestOf p) _ _
            subdomain ips verbose st eq_refl).
  - intros sub ipv6. apply Vercel_DeleteRecords_only.
    + intros dr. apply Hq. apply Vercel_buildURL_prefix. reflexivity.
    + intros recordID dr. apply Hq. apply Vercel_buildURL_prefix. reflexivity.
  - intros sub l. apply Vercel_CreateRecords_only.
    intros recordType value dr. apply Hq.
    apply Vercel_buildURL_prefix. reflexivity.
Qed.

(** X6: whatever the server answers and however the run ends, every
    request [Upload] sends through the Cloudflare provider carries the
    provider's bearer token and the JSON content type and goes to a URL
    under https://api.cloudflare.com/client/v4/zones/<zone id>, and the
    provider's token and zone id are unchanged at the end. *)
Theorem Upload_cloudflare_requests :
  forall S (serve : S -> Request -> S * DoResult) lib subdomain ips verbose st,
    let out := Upload (CloudflareImpl serve lib) subdomain ips verbose st in
    let token := cf_token (self (world st)) in
    let zoneID := cf_zoneID (self (world st)) in
    (cf_token (self (world (snd out))) = token /\
     cf_zoneID (self (world (snd out))) = zoneID) /\
    exists exs,
      sent (net (world (snd out))) = (sent (net (world st)) ++ exs)%list /\
      Forall (cloudflareRequestOf token zoneID) exs.
Proof.
  intros S serve lib subdomain ips verbose st. cbv zeta.
  set (token := cf_token (self (world st))).
  set (zoneID := cf_zoneID (self (world st))).
  pose (cIP := fun p => cf_token p = token /\ cf_zoneID p = zoneID).
  assert (Hfix : forall p, cIP p -> cf_token p = token /\ cf_zoneID p = zoneID)
    by (intros p H; exact H).
  assert (Hzone :
    (forall p, cIP p -> cf_zoneName p <> "") \/
    ((forall p name, cIP p ->
        cIP (mkCloudflareProvider (cf_token p) (cf_zoneID p) name)) /\
     (forall dr, cloudflareRequestOf token zoneID
                   (Cloudflare_zoneRequest
                      (mkCloudflareProvider token zoneID ""), dr)))).
  { right. split; [intros p name H; exact H|].
    intros dr. split; [reflexivity|]. cbn [fst ReqURL Cloudflare_zoneRequest].
    unfold Cloudflare_zoneURL. cbn [cf_zoneID]. apply prefix_refl. }
  refine (@Upload_only _ (CloudflareImpl serve lib) (@netLog S CloudflareProvider)
            (fun s => cIP (self s)) (cloudflareRequestOf token zoneID) _ _
            subdomain ips verbose st (conj eq_refl eq_refl)).
  - intros sub ipv6.
    apply (@Cloudflare_DeleteRecords_only S serve lib token zoneID cIP
             (cloudflareRequestOf token zoneID) Hfix Hzone).
    + intros name recordType dr. split; [reflexivity|].
      apply zone_suffix_prefix.
    + intros recordID dr. split; [reflexivity|]. apply zone_suffix_prefix.
  - intros sub l.
    apply (@Cloudflare_CreateRecords_only S serve lib token zoneID cIP
             (cloudflareRequestOf token zoneID) Hfix Hzone).
    intros name recordType content dr. split; [reflexivity|].
    apply zone_suffix_prefix.
Qed.

(** X7: whatever the server answers, DeleteRecords of either provider
    never sends a record-creation (POST) request, CreateRecords of the
    Vercel provider sends POST requests only, and CreateRecords of the
    Cloudflare provider never sends a DELETE request. *)
Theorem DeleteRecords_never_creates :
  forall S (serve : S -> Request -> S * DoResult) lib subdomain,
    (forall ipv6 st, exists exs,
       sent (net (snd (Vercel_DeleteRecords serve lib subdomain ipv6 st)))
       = (sent (net st) ++ exs)%list /\
       Forall (fun ex => ReqMethod (fst ex) <> MethodPost) exs) /\
    (forall ips st, exists exs,
       sent (net (snd (Vercel_CreateRecords serve lib subdomain ips st)))
       = (sent (net st) ++ exs)%list /\
       Forall (fun ex => ReqMethod (fst ex) = MethodPost) exs) /\
    (forall ipv6 st, exists exs,
       sent (net (snd (Cloudflare_DeleteRecords serve lib subdomain ipv6 st)))
       = (sent (net st) ++ exs)%list /\
       Forall (fun ex => ReqMethod (fst ex) <> MethodPost) exs) /\
    (forall ips st, exists exs,
       sent (net (snd (Cloudflare_CreateRecords serve lib subdomain ips st)))
       = (sent (net st) ++ exs)%list /\
       Forall (fun ex => ReqMethod (fst ex) <> MethodDelete) exs).
Proof.
  intros S serve lib subdomain.
  assert (Hc : forall st : State S CloudflareProvider,
    let token := cf_token (self st) in
    let zoneID := cf_zoneID (self st) in
    let cIP := fun p => cf_token p = token /\ cf_zoneID p = zoneID in
    forall allowed : Exchange -> Prop,
      (forall dr, allowed (Cloudflare_zoneRequest
                             (mkCloudflareProvider token zoneID ""), dr)) ->
      (forall p, cIP p -> cf_token p = token /\ cf_zoneID p = zoneID) /\
      ((forall p, cIP p -> cf_zoneName p <> "") \/
       ((forall p name, cIP p ->
           cIP (mkCloudflareProvider (cf_token p) (cf_zoneID p) name)) /\
        (forall dr, allowed (Cloudflare_zoneRequest
                               (mkCloudflareProvider token zoneID ""), dr))))).
  { intros st token zoneID cIP allowed Hz. split; [intros p H; exact H|].
    right. split; [intros p name H; exact H | exact Hz]. }
  split; [|split; [|split]].
  - intros ipv6 st.
    refine (proj2 (@Vercel_DeleteRecords_only S serve lib (self st)
                     (fun ex => ReqMethod (fst ex) <> MethodPost)
                     subdomain ipv6 _ _ st eq_refl)).
    + intros dr. discriminate.
    + intros recordID dr. discriminate.
  - intros ips st.
    refine (proj2 (@Vercel_CreateRecords_only S serve lib (self st)
                     (fun ex => ReqMethod (fst ex) = MethodPost)
                     subdomain ips _ st eq_refl)).
    intros recordType value dr. reflexivity.
  - intros ipv6 st.
    destruct (Hc st (fun ex => ReqMethod (fst ex) <> MethodPost)) as [Hf Hz];
      [intros dr; discriminate|].
    refine (proj2 (@Cloudflare_DeleteRecords_only S serve lib _ _ _ _ Hf Hz
                     subdomain ipv6 _ _ st (conj eq_refl eq_refl))).
    + intros name recordType dr. discriminate.
    + intros recordID dr. discriminate.
  - intros ips st.
    destruct (Hc st (fun ex => ReqMethod (fst ex) <> MethodDelete)) as [Hf Hz];
      [intros dr; discriminate|].
    refine (proj2 (@Cloudflare_CreateRecords_only S serve lib _ _ _ _ Hf Hz
                     subdomain ips _ st (conj eq_refl eq_refl))).
    intros name recordType content dr. discriminate.
Qed.

(** X8: with a zone name already cached in the Cloudflare provider, an
    [Upload] run sends no zone lookup at all, whatever the server
    answers, and leaves the provider struct, cached name included, as it
    was. *)
Theorem Upload_cached_zone_no_lookup :
  forall S (serve : S -> Request -> S * DoResult) lib subdomain ips verbose st,
    cf_zoneName (self (world st)) <> "" ->
    let out := Upload (CloudflareImpl serve lib) subdomain ips verbose st in
    self (world (snd out)) = self (world st) /\
    exists exs,
      sent (net (world (snd out))) = (sent (net (world st)) ++ exs)%list /\
      Forall (fun ex => ReqURL (fst ex) <> Cloudflare_zoneURL (self (world st)))
             exs.
Proof.
  intros S serve lib subdomain ips verbose st Hne. cbv zeta.
  set (p1 := self (world st)) in *.
  set (allowed := fun ex : Exchange => ReqURL (fst ex) <> Cloudflare_zoneURL p1).
  assert (Hfix : forall p, p = p1 ->
                   cf_token p = cf_token p1 /\ cf_zoneID p = cf_zoneID p1)
    by (intros p ->; split; reflexivity).
  assert (Hzone :
    (forall p, p = p1 -> cf_zoneName p <> "") \/
    ((forall p name, p = p1 ->
        mkCloudflareProvider (cf_token p) (cf_zoneID p) name = p1) /\
     (forall dr, allowed (Cloudflare_zoneRequest
                            (mkCloudflareProvider (cf_token p1) (cf_zoneID p1) ""),
                          dr))))
    by (left; intros p ->; exact Hne).
  refine (@Upload_only _ (CloudflareImpl serve lib) (@netLog S CloudflareProvider)
            (fun s => self s = p1) allowed _ _
            subdomain ips verbose st eq_refl).
  - intros sub ipv6.
    apply (@Cloudflare_DeleteRecords_only S serve lib (cf_token p1)
             (cf_zoneID p1) (fun p => p = p1) allowed Hfix Hzone).
    + intros name recordType dr. apply zone_suffix_neq.
    + intros recordID dr. apply zone_suffix_neq.
  - intros sub l.
    apply (@Cloudflare_CreateRecords_only S serve lib (cf_token p1)
             (cf_zoneID p1) (fun p => p = p1) allowed Hfix Hzone).
    intros name recordType content dr. apply zone_suffix_neq.
Qed.

Lemma Upload_cached_zone_no_lookup_witness :
  exists exs,
    sent (net (world (snd (Upload
      (CloudflareImpl (Fixture.cloudflareServer 200) Fixture.lib) "cf"
      [Fixture.ip4a] false
      (Fixture.start
         (mkState (mkCloudflareProvider "tok" "zone123" "example.org")
                  (mkNet 0%nat [])))))))
    = ([] ++ exs)%list /\
    length exs = 4%nat /\
    Forall (fun ex => ReqURL (fst ex)
                      <> "https://api.cloudflare.com/client/v4/zones/zone123")
           exs.
Proof.
  assert (Hne : "example.org" <> "") by discriminate.
  destruct (Upload_cached_zone_no_lookup
              (Fixture.cloudflareServer 200) Fixture.lib "cf" [Fixture.ip4a]
              false
              (Fixture.start
                 (mkState (mkCloudflareProvider "tok" "zone123" "example.org")
                          (mkNet 0%nat [])))
              Hne) as [_ (exs & Hl & Hf)].
  exists exs. split; [exact Hl|]. split; [|exact Hf].
  vm_compute in Hl. rewrite <- Hl. reflexivity.
Defined.

(** ** Runs that fail part of the way *)

Section PartialFailure.

Variable S : Type.
Variable serve : S -> Request -> S * DoResult.
Variable lib : GoLib.

Local Abbreviation State := (State S).

Lemma roundTrip_err : forall P A (mk : error + Request)
    (handle : Response -> error + A) (st st' : State P) e,
  roundTrip serve mk handle st = (inl e, st') ->
  self st' = self st /\
  ((mk = inl e /\ st' = st) \/
   exists req dr,
     mk = inr req /\
     sent (net st') = (sent (net st) ++ [(req, dr)])%list).
Proof.
  intros P A mk handle st st' e H. unfold roundTrip in H.
  destruct mk as [e0|req].
  - inversion H; subst. split; [reflexivity|]. left. split; reflexivity.
  - destruct (serve (srv (net st)) req) as [s' dr].
    inversion H; subst. split; [reflexivity|]. right.
    exists req, dr. split; reflexivity.
Qed.

(** A loop whose body sends the single request [req x] when it succeeds
    and at most that request when it fails, wrapping its error under
    [wrap x]: when the loop fails, it failed at some element, after one
    request for each element before it. *)
Lemma forRange_err : forall P A (body : A -> M (State P) unit)
    (req : P -> A -> Request) (wrap : A -> string),
  (forall x st st', body x st = (inr tt, st') ->
     self st' = self st /\
     exists r, sent (net st') = (sent (net st) ++ [(req (self st) x, r)])%list) ->
  (forall x st st' err, body x st = (inl err, st') ->
     self st' = self st /\
     (exists e, err = wrapError (wrap x) e) /\
     (sent (net st') = sent (net st) \/
      exists r, sent (net st') = (sent (net st) ++ [(req (self st) x, r)])%list)) ->
  forall xs st st' err, forRange xs body st = (inl err, st') ->
    exists done x rest e exs tail,
      xs = (done ++ x :: rest)%list /\
      err = wrapError (wrap x) e /\
      sent (net st') = (sent (net st) ++ exs ++ tail)%list /\
      map fst exs = map (req (self st)) done /\
      (tail = [] \/ exists r, tail = [(req (self st) x, r)]).
Proof.
  intros P A body req wrap Hok Herr.
  induction xs as [|x xs IH]; intros st st' err H.
  - discriminate.
  - rewrite forRange_cons in H.
    destruct (body x st) as [[e0|[]] st1] eqn:Hb.
    + inversion H; subst.
      destruct (Herr _ _ _ _ Hb) as (Hs & (e & He) & Hl).
      exists [], x, xs, e, [].
      destruct Hl as [Hl|[r Hl]].
      * exists []. rewrite Hl, !app_nil_r. repeat split; auto.
      * exists [(req (self st) x, r)]. rewrite Hl. repeat split; eauto.
    + destruct (Hok _ _ _ Hb) as (Hs & r & Hl).
      destruct (IH _ _ _ H)
        as (done & y & rest & e & exs & tail & Hx & He & Hl2 & Hm & Ht).
      exists (x :: done), y, rest, e, ((req (self st) x, r) :: exs), tail.
      rewrite Hs in *. repeat split.
      * simpl. now rewrite Hx.
      * exact He.
      * rewrite Hl2, Hl, <- !app_assoc. reflexivity.
      * simpl. now rewrite Hm.
      * exact Ht.
Qed.

Lemma forRange_filter : forall St A (t : A -> bool) (b : A -> M St unit) xs st,
  forRange xs (fun x => if t x then b x else ret tt) st
  = forRange (filter t xs) b st.
Proof.
  intros St A t b. induction xs as [|x xs IH]; intros st; [reflexivity|].
  cbn [filter]. destruct (t x) eqn:E.
  - rewrite !forRange_cons, E. destruct (b x st) as [[e|u] s1]; [reflexivity|].
    apply IH.
  - rewrite forRange_cons, E. unfold ret. apply IH.
Qed.

Lemma orReturn_err : forall St A (c : M St A) f st err st',
  orReturn c f st = (inl err, st') ->
  exists e, c st = (inl e, st') /\ err = f e.
Proof.
  intros St A c f st err st' H. unfold orReturn in H.
  destruct (c st) as [[e|a] s0]; [|discriminate].
  inversion H; subst. exists e. split; reflexivity.
Qed.

Lemma Vercel_createRecord_err : forall name recordType value (st st' : State _) e,
  Vercel_createRecord serve lib name recordType value st = (inl e, st') ->
  self st' = self st /\
  (sent (net st') = sent (net st) \/
   exists r,
     sent (net st') =
     (sent (net st)
      ++ [(Vercel_createRequest lib (self st) name recordType value, r)])%list).
Proof.
  intros name recordType value st st' e H.
  rewrite Vercel_createRecord_eq in H. apply roundTrip_err in H.
  destruct H as [Hs [[_ ->]|(req & dr & Hreq & Hl)]].
  - split; [reflexivity | left; reflexivity].
  - split; [exact Hs|]. right. apply Vercel_request_inv in Hreq. subst req.
    exists dr. exact Hl.
Qed.

Lemma Vercel_deleteRecord_err : forall recordID (st st' : State _) e,
  Vercel_deleteRecord serve lib recordID st = (inl e, st') ->
  self st' = self st /\
  (sent (net st') = sent (net st) \/
   exists r,
     sent (net st') =
     (sent (net st) ++ [(Vercel_deleteRequest lib (self st) recordID, r)])%list).
Proof.
  intros recordID st st' e H.
  rewrite Vercel_deleteRecord_eq in H. apply roundTrip_err in H.
  destruct H as [Hs [[_ ->]|(req & dr & Hreq & Hl)]].
  - split; [reflexivity | left; reflexivity].
  - split; [exact Hs|]. right. apply Vercel_request_inv in Hreq. subst req.
    exists dr. exact Hl.
Qed.

Lemma Cloudflare_createRecord_err : forall name recordType content
    (st st' : State _) e,
  Cloudflare_createRecord serve lib name recordType content st = (inl e, st') ->
  self st' = self st /\
  (sent (net st') = sent (net st) \/
   exists r,
     sent (net st') =
     (sent (net st)
      ++ [(Cloudflare_createRequest (self st) name recordType content, r)])%list).
Proof.
  intros name recordType content st st' e H.
  rewrite Cloudflare_createRecord_eq in H. apply roundTrip_err in H.
  destruct H as [Hs [[_ ->]|(req & dr & Hreq & Hl)]].
  - split; [reflexivity | left; reflexivity].
  - split; [exact Hs|]. right. apply Cloudflare_request_inv in Hreq. subst req.
    exists dr. exact Hl.
Qed.

Lemma Cloudflare_deleteRecord_err : forall recordID (st st' : State _) e,
  Cloudflare_deleteRecord serve lib recordID st = (inl e, st') ->
  self st' = self st /\
  (sent (net st') = sent (net st) \/
   exists r,
     sent (net st') =
     (sent (net st) ++ [(Cloudflare_deleteRequest (self st) recordID, r)])%list).
Proof.
  intros recordID st st' e H.
  rewrite Cloudflare_deleteRecord_eq in H. apply roundTrip_err in H.
  destruct H as [Hs [[_ ->]|(req & dr & Hreq & Hl)]].
  - split; [reflexivity | left; reflexivity].
  - split; [exact Hs|]. right. apply Cloudflare_request_inv in Hreq. subst req.
    exists dr. exact Hl.
Qed.

End PartialFailure.

(** X9: when CreateRecords of the Vercel provider returns an error, it
    failed at one address of the list: the error is wrapped under
    "create record for <address>: ", one record-creation request was
    sent for each address before it, in order, at most one for the
    address itself, and none for the addresses after it. *)
Theorem Vercel_CreateRecords_partial :
  forall S (serve : S -> Request -> S * DoResult) lib subdomain ips st st' err,
    Vercel_CreateRecords serve lib subdomain ips st = (inl err, st') ->
    exists done ip rest e exs tail,
      ips = (done ++ ip :: rest)%list /\
      err = wrapError ("create record for " ++ Addr_String lib ip ++ ": ") e /\
      sent (net st') = (sent (net st) ++ exs ++ tail)%list /\
      map fst exs =
      map (fun a => Vercel_createRequest lib (self st) subdomain
                      (if Is6 a then "AAAA" else "A") (Addr_String lib a)) done /\
      (tail = [] \/
       exists r,
         tail = [(Vercel_createRequest lib (self st) subdomain
                    (if Is6 ip then "AAAA" else "A") (Addr_String lib ip), r)]).
Proof.
  intros S serve lib subdomain ips st st' err H.
  unfold Vercel_CreateRecords in H.
  apply forRange_err with
    (req := fun p a => Vercel_createRequest lib p subdomain
                         (recordTypeOf (Is6 a)) (Addr_String lib a))
    (wrap := fun a => "create record for " ++ Addr_String lib a ++ ": ") in H.
  - exact H.
  - intros a s0 s1 Hb. apply orReturn_ok in Hb.
    apply Vercel_createRecord_ok in Hb. exact Hb.
  - intros a s0 s1 e0 Hb. apply orReturn_err in Hb.
    destruct Hb as (e & Hb & ->).
    apply Vercel_createRecord_err in Hb. destruct Hb as [Hs Hl].
    split; [exact Hs|]. split; [exists e; reflexivity | exact Hl].
Qed.

Lemma Vercel_CreateRecords_partial_witness :
  exists done ip rest,
    [Fixture.ip4a; Fixture.ip6a] = (done ++ ip :: rest)%list /\
    fst (Vercel_CreateRecords Fixture.vercelReadOnly Fixture.lib "cf"
           [Fixture.ip4a; Fixture.ip6a] Fixture.vcStart)
    = inl (wrapError ("create record for " ++ Fixture.addrString ip ++ ": ")
             (errorString "vercel API error: Not authorized")) /\
    length (sent (net (snd (Vercel_CreateRecords Fixture.vercelReadOnly
                              Fixture.lib "cf" [Fixture.ip4a; Fixture.ip6a]
                              Fixture.vcStart)))) = 1%nat.
Proof.
  assert (H0 : Vercel_CreateRecords Fixture.vercelReadOnly Fixture.lib "cf"
                 [Fixture.ip4a; Fixture.ip6a] Fixture.vcStart
               = (inl (wrapError "create record for 192.0.2.1: "
                         (errorString "vercel API error: Not authorized")),
                  snd (Vercel_CreateRecords Fixture.vercelReadOnly Fixture.lib
                         "cf" [Fixture.ip4a; Fixture.ip6a] Fixture.vcStart)))
    by reflexivity.
  destruct (Vercel_CreateRecords_partial _ _ _ _ _ H0)
    as (done & ip & rest & e & exs & tail & Hx & He & _).
  exists done, ip, rest. split; [exact Hx|].
  split; [|reflexivity].
  rewrite H0. cbn [fst].
  pose proof (f_equal (fun x => match x with
                                | wrapError p _ => p
                                | errorString m => m
                                end) He) as Hp.
  cbv beta iota in Hp. rewrite Hp. reflexivity.
Defined.

Lemma getZoneName_err :
  forall S (serve : S -> Request -> S * DoResult) lib
         (st st' : State S CloudflareProvider) e,
    getZoneName serve lib st = (inl e, st') ->
    cf_zoneName (self st) = "" /\
    self st' = self st /\
    (sent (net st') = sent (net st) \/
     exists r,
       sent (net st')
       = (sent (net st) ++ [(Cloudflare_zoneRequest (self st), r)])%list).
Proof.
  intros S serve lib st st' e H. rewrite getZoneName_eq in H.
  destruct (String.eqb_spec (cf_zoneName (self st)) "") as [E|E];
    cbn [negb] in H; [|discriminate].
  split; [exact E|].
  destruct (roundTrip serve _ _ st) as [[e0|nm] s1] eqn:R; [|discriminate].
  inversion H; subst. apply roundTrip_err in R.
  destruct R as [Hs [[_ ->]|(req & dr & Hreq & Hl)]].
  - split; [reflexivity | left; reflexivity].
  - split; [exact Hs|]. right. apply Cloudflare_request_inv in Hreq. subst req.
    exists dr. exact Hl.
Qed.

Lemma buildFQDN_err :
  forall S (serve : S -> Request -> S * DoResult) lib subdomain
         (st st' : State S CloudflareProvider) err,
    buildFQDN serve lib subdomain st = (inl err, st') ->
    exists e, getZoneName serve lib st = (inl e, st') /\
              err = wrapError "get zone name: " e.
Proof.
  intros S serve lib subdomain st st' err H. unfold buildFQDN, bind, orReturn in H.
  destruct (getZoneName serve lib st) as [[e|name] s1].
  - inversion H; subst. exists e. split; reflexivity.
  - destruct (_ || _); discriminate.
Qed.

(** X10: a call of getZoneName that returns an error has cached nothing:
    the zone name was not cached before, the provider struct is left as
    it was, so the next call looks the zone up again, and at most one
    request, the zone lookup, was sent. *)
Theorem getZoneName_failure_caches_nothing :
  forall S (serve : S -> Request -> S * DoResult) lib
         (st st' : State S CloudflareProvider) e,
    getZoneName serve lib st = (inl e, st') ->
    cf_zoneName (self st) = "" /\
    self st' = self st /\
    (sent (net st') = sent (net st) \/
     exists r,
       sent (net st')
       = (sent (net st) ++ [(Cloudflare_zoneRequest (self st), r)])%list).
Proof. intros S serve lib st st' e H. exact (getZoneName_err _ _ _ H). Qed.

Lemma getZoneName_failure_caches_nothing_witness :
  self (snd (getZoneName Fixture.cloudflareDenied Fixture.lib Fixture.cfStart))
  = Fixture.cfProvider /\
  length (sent (net (snd (getZoneName Fixture.cloudflareDenied Fixture.lib
                            Fixture.cfStart)))) = 1%nat.
Proof.
  assert (H0 : getZoneName Fixture.cloudflareDenied Fixture.lib Fixture.cfStart
               = (inl (errorString "cloudflare API error: Authentication error"),
                  snd (getZoneName Fixture.cloudflareDenied Fixture.lib
                         Fixture.cfStart)))
    by reflexivity.
  destruct (getZoneName_failure_caches_nothing _ _ _ H0) as (_ & Hs & _).
  split; [exact Hs | reflexivity].
Defined.

(** X11: when CreateRecords of the Cloudflare provider returns an error,
    either the zone name could not be obtained, the error is that of
    getZoneName under "get zone name: " and no record-creation request
    was sent; or it failed at one address of the list: the error is
    wrapped under "create record for <address>: ", one record-creation
    request was sent for each address before it, in order, at most one
    for the address itself, and none for the addresses after it. *)
Theorem Cloudflare_CreateRecords_partial :
  forall S (serve : S -> Request -> S * DoResult) lib subdomain ips st st' err,
    Cloudflare_CreateRecords serve lib subdomain ips st = (inl err, st') ->
    (exists e,
       getZoneName serve lib st = (inl e, st') /\
       err = wrapError "get zone name: " e /\
       Forall (fun ex => ReqMethod (fst ex) = MethodGet)
              (skipn (length (sent (net st))) (sent (net st')))) \/
    (exists fqdn st1 done ip rest e exs tail,
       buildFQDN serve lib subdomain st = (inr fqdn, st1) /\
       ips = (done ++ ip :: rest)%list /\
       err = wrapError ("create record for " ++ Addr_String lib ip ++ ": ") e /\
       sent (net st') = (sent (net st1) ++ exs ++ tail)%list /\
       map fst exs =
       map (fun a => Cloudflare_createRequest (self st) fqdn
                       (if Is6 a then "AAAA" else "A") (Addr_String lib a)) done /\
       (tail = [] \/
        exists r,
          tail = [(Cloudflare_createRequest (self st) fqdn
                     (if Is6 ip then "AAAA" else "A") (Addr_String lib ip), r)])).
Proof.
  intros S serve lib subdomain ips st st' err H.
  unfold Cloudflare_CreateRecords, bind in H.
  destruct (buildFQDN serve lib subdomain st) as [[e0|fqdn] st1] eqn:B.
  - left. inversion H; subst. apply buildFQDN_err in B.
    destruct B as (e & G & ->). exists e. split; [exact G|].
    split; [reflexivity|].
    apply getZoneName_err in G. destruct G as (_ & _ & [Hl|[r Hl]]); rewrite Hl.
    + rewrite skipn_all. constructor.
    + rewrite skipn_app, skipn_all, Nat.sub_diag. cbn.
      constructor; [reflexivity | constructor].
  - right.
    pose proof (@buildFQDN_ok _ _ _ _ _ _ _ B) as [G _].
    pose proof (@getZoneName_ok _ _ _ _ _ _ G) as (Ht & Hz & _).
    apply forRange_err with
      (req := fun p a => Cloudflare_createRequest p fqdn
                           (recordTypeOf (Is6 a)) (Addr_String lib a))
      (wrap := fun a => "create record for " ++ Addr_String lib a ++ ": ") in H.
    + destruct H as (done & ip & rest & e & exs & tail & Hx & He & Hl & Hm & Hta).
      exists fqdn, st1, done, ip, rest, e, exs, tail.
      split; [reflexivity|]. split; [exact Hx|]. split; [exact He|].
      split; [exact Hl|].
      assert (Hext : forall a,
                Cloudflare_createRequest (self st1) fqdn (recordTypeOf (Is6 a))
                                         (Addr_String lib a)
                = Cloudflare_createRequest (self st) fqdn
                    (if Is6 a then "AAAA" else "A") (Addr_String lib a))
        by (intros a; apply Cloudflare_createRequest_ext; assumption).
      split.
      * rewrite Hm. apply map_ext. exact Hext.
      * destruct Hta as [->|[r ->]]; [left; reflexivity|].
        right. exists r. rewrite Hext. reflexivity.
    + intros a s0 s1 Hb. apply orReturn_ok in Hb.
      apply Cloudflare_createRecord_ok in Hb. exact Hb.
    + intros a s0 s1 e1 Hb. apply orReturn_err in Hb.
      destruct Hb as (e & Hb & ->).
      apply Cloudflare_createRecord_err in Hb. destruct Hb as [Hs Hl].
      split; [exact Hs|]. split; [exists e; reflexivity | exact Hl].
Qed.

Lemma Cloudflare_CreateRecords_partial_witness :
  exists e,
    fst (Cloudflare_CreateRecords Fixture.cloudflareDenied Fixture.lib "cf"
           [Fixture.ip4a] Fixture.cfStart)
    = inl (wrapError "get zone name: " e) /\
    map (fun ex => ReqMethod (fst ex))
        (sent (net (snd (Cloudflare_CreateRecords Fixture.cloudflareDenied
                           Fixture.lib "cf" [Fixture.ip4a] Fixture.cfStart))))
    = [MethodGet].
Proof.
  assert (H0 : Cloudflare_CreateRecords Fixture.cloudflareDenied Fixture.lib
                 "cf" [Fixture.ip4a] Fixture.cfStart
               = (inl (wrapError "get zone name: "
                         (errorString
                            "cloudflare API error: Authentication error")),
                  snd (Cloudflare_CreateRecords Fixture.cloudflareDenied
                         Fixture.lib "cf" [Fixture.ip4a] Fixture.cfStart)))
    by reflexivity.
  destruct (Cloudflare_CreateRecords_partial _ _ _ _ _ H0)
    as [(e & _ & He & _)|(fqdn & st1 & done & ip & rest & e & exs & tail
                          & B & _)].
  - exists e. rewrite H0. cbn [fst]. rewrite He. split; reflexivity.
  - vm_compute in B. discriminate.
Defined.

Lemma Vercel_listRecords_err :
  forall S (serve : S -> Request -> S * DoResult) lib
         (st st' : State S VercelProvider) e,
    Vercel_listRecords serve lib st = (inl e, st') ->
    self st' = self st /\
    (sent (net st') = sent (net st) \/
     exists r,
       sent (net st')
       = (sent (net st) ++ [(Vercel_listRequest lib (self st), r)])%list).
Proof.
  intros S serve lib st st' e H.
  rewrite Vercel_listRecords_eq in H. apply roundTrip_err in H.
  destruct H as [Hs [[_ ->]|(req & dr & Hreq & Hl)]].
  - split; [reflexivity | left; reflexivity].
  - split; [exact Hs|]. right. apply Vercel_request_inv in Hreq. subst req.
    exists dr. exact Hl.
Qed.

Lemma Cloudflare_listRecords_err :
  forall S (serve : S -> Request -> S * DoResult) lib name recordType
         (st st' : State S CloudflareProvider) e,
    Cloudflare_listRecords serve lib name recordType st = (inl e, st') ->
    self st' = self st /\
    (sent (net st') = sent (net st) \/
     exists r,
       sent (net st')
       = (sent (net st)
          ++ [(Cloudflare_listRequest (self st) name recordType, r)])%list).
Proof.
  intros S serve lib name recordType st st' e H.
  rewrite Cloudflare_listRecords_eq in H. apply roundTrip_err in H.
  destruct H as [Hs [[_ ->]|(req & dr & Hreq & Hl)]].
  - split; [reflexivity | left; reflexivity].
  - split; [exact Hs|]. right. apply Cloudflare_request_inv in Hreq. subst req.
    exists dr. exact Hl.
Qed.

(** X12: when DeleteRecords of the Vercel provider returns an error,
    either the listing failed, the error is the listing's own and
    nothing but the listing request was sent; or a deletion failed at
    one of the listed records of the requested type and name: the error
    is wrapped under "delete record <id>: ", one deletion request was
    sent for each matching record before it, in the order of the
    listing, at most one for the record itself, and none for the records
    after it or for records of another type or name. *)
Theorem Vercel_DeleteRecords_partial :
  forall S (serve : S -> Request -> S * DoResult) lib subdomain ipv6 st st' err,
    Vercel_DeleteRecords serve lib subdomain ipv6 st = (inl err, st') ->
    (Vercel_listRecords serve lib st = (inl err, st') /\
     (sent (net st') = sent (net st) \/
      exists r,
        sent (net st')
        = (sent (net st) ++ [(Vercel_listRequest lib (self st), r)])%list)) \/
    (exists records st1 done rec rest e exs tail,
       Vercel_listRecords serve lib st = (inr records, st1) /\
       filter (fun r => (vcType r =? (if ipv6 then "AAAA" else "A"))%string
                        && (vcName r =? subdomain)%string) records
       = (done ++ rec :: rest)%list /\
       err = wrapError ("delete record " ++ vcID rec ++ ": ") e /\
       sent (net st') = (sent (net st1) ++ exs ++ tail)%list /\
       map fst exs
       = map (fun r => Vercel_deleteRequest lib (self st) (vcID r)) done /\
       (tail = [] \/
        exists r, tail = [(Vercel_deleteRequest lib (self st) (vcID rec), r)])).
Proof.
  intros S serve lib subdomain ipv6 st st' err H.
  unfold Vercel_DeleteRecords, bind in H.
  destruct (Vercel_listRecords serve lib st) as [[e0|records] st1] eqn:L.
  - left. inversion H; subst. split; [reflexivity|].
    apply Vercel_listRecords_err in L. tauto.
  - right.
    assert (Hself : self st1 = self st).
    { rewrite Vercel_listRecords_eq in L. apply roundTrip_ok in L.
      destruct L as (? & ? & ? & _ & _ & _ & ->). reflexivity. }
    rewrite (forRange_filter
               (fun r => (vcType r =? recordTypeOf ipv6)%string
                         && (vcName r =? subdomain)%string)
               (fun r => orReturn (Vercel_deleteRecord serve lib (vcID r))
                           (wrapError ("delete record " ++ vcID r ++ ": ")))) in H.
    apply forRange_err with
      (req := fun p r => Vercel_deleteRequest lib p (vcID r))
      (wrap := fun r => "delete record " ++ vcID r ++ ": ") in H.
    + destruct H as (done & rec & rest & e & exs & tail & Hx & He & Hl & Hm & Hta).
      rewrite Hself in Hm, Hta.
      exists records, st1, done, rec, rest, e, exs, tail.
      repeat split; assumption.
    + intros r s0 s1 Hb. apply orReturn_ok in Hb.
      apply Vercel_deleteRecord_ok in Hb. exact Hb.
    + intros r s0 s1 e1 Hb. apply orReturn_err in Hb.
      destruct Hb as (e & Hb & ->).
      apply Vercel_deleteRecord_err in Hb. destruct Hb as [Hs Hl].
      split; [exact Hs|]. split; [exists e; reflexivity | exact Hl].
Qed.

Lemma Vercel_DeleteRecords_partial_witness :
  exists st1 done rec rest,
    Vercel_listRecords Fixture.vercelReadOnly Fixture.lib Fixture.vcStart
    = (inr [Fixture.vrecA; Fixture.vrecTXT; Fixture.vrecOther; Fixture.vrecA2],
       st1) /\
    [Fixture.vrecA; Fixture.vrecA2] = (done ++ rec :: rest)%list /\
    fst (Vercel_DeleteRecords Fixture.vercelReadOnly Fixture.lib "cf" false
           Fixture.vcStart)
    = inl (wrapError ("delete record " ++ vcID rec ++ ": ")
             (errorString "vercel API error: Not authorized")).
Proof.
  assert (H0 : Vercel_DeleteRecords Fixture.vercelReadOnly Fixture.lib "cf"
                 false Fixture.vcStart
               = (inl (wrapError "delete record v1: "
                         (errorString "vercel API error: Not authorized")),
                  snd (Vercel_DeleteRecords Fixture.vercelReadOnly Fixture.lib
                         "cf" false Fixture.vcStart)))
    by reflexivity.
  destruct (Vercel_DeleteRecords_partial _ _ _ _ _ H0)
    as [[L _]|(records & st1 & done & rec & rest & e & exs & tail
               & L & Hx & He & _)].
  - vm_compute in L. discriminate.
  - assert (E : records = [Fixture.vrecA; Fixture.vrecTXT; Fixture.vrecOther;
                           Fixture.vrecA2]).
    { vm_compute in L. inversion L. reflexivity. }
    subst records. exists st1, done, rec, rest.
    split; [exact L|]. split; [exact Hx|].
    rewrite H0. cbn [fst].
    pose proof (f_equal (fun x => match x with
                                  | wrapError p _ => p
                                  | errorString m => m
                                  end) He) as Hp.
    cbv beta iota in Hp. rewrite Hp. reflexivity.
Defined.

(** X13: when DeleteRecords of the Cloudflare provider returns an error,
    either the zone name could not be obtained and the error is that of
    getZoneName under "get zone name: "; or the listing failed and the
    error is the listing's own; or a deletion failed at one of the
    listed records: the error is wrapped under "delete record <id>: ",
    one deletion request was sent for each listed record before it, in
    the order of the listing, at most one for the record itself, and
    none for the records after it. *)
Theorem Cloudflare_DeleteRecords_partial :
  forall S (serve : S -> Request -> S * DoResult) lib subdomain ipv6 st st' err,
    Cloudflare_DeleteRecords serve lib subdomain ipv6 st = (inl err, st') ->
    (exists e,
       getZoneName serve lib st = (inl e, st') /\
       err = wrapError "get zone name: " e) \/
    (exists fqdn st1,
       buildFQDN serve lib subdomain st = (inr fqdn, st1) /\
       Cloudflare_listRecords serve lib fqdn (if ipv6 then "AAAA" else "A") st1
       = (inl err, st')) \/
    (exists fqdn st1 records st2 done rec rest e exs tail,
       buildFQDN serve lib subdomain st = (inr fqdn, st1) /\
       Cloudflare_listRecords serve lib fqdn (if ipv6 then "AAAA" else "A") st1
       = (inr records, st2) /\
       records = (done ++ rec :: rest)%list /\
       err = wrapError ("delete record " ++ cfID rec ++ ": ") e /\
       sent (net st') = (sent (net st2) ++ exs ++ tail)%list /\
       map fst exs
       = map (fun r => Cloudflare_deleteRequest (self st) (cfID r)) done /\
       (tail = [] \/
        exists r, tail = [(Cloudflare_deleteRequest (self st) (cfID rec), r)])).
Proof.
  intros S serve lib subdomain ipv6 st st' err H.
  unfold Cloudflare_DeleteRecords, bind in H.
  destruct (buildFQDN serve lib subdomain st) as [[e0|fqdn] st1] eqn:B.
  - left. inversion H; subst. apply buildFQDN_err in B. exact B.
  - right.
    destruct (Cloudflare_listRecords serve lib fqdn (recordTypeOf ipv6) st1)
      as [[e0|records] st2] eqn:L.
    + left. inversion H; subst. exists fqdn, st1. split; [reflexivity | exact L].
    + right.
      pose proof (@buildFQDN_ok _ _ _ _ _ _ _ B) as [G _].
      pose proof (@getZoneName_ok _ _ _ _ _ _ G) as (Ht & Hz & _).
      assert (Hself : self st2 = self st1).
      { rewrite Cloudflare_listRecords_eq in L. apply roundTrip_ok in L.
        destruct L as (? & ? & ? & _ & _ & _ & ->). reflexivity. }
      assert (Hext : forall id,
                Cloudflare_deleteRequest (self st2) id
                = Cloudflare_deleteRequest (self st) id).
      { intros id. unfold Cloudflare_deleteRequest, Cloudflare_deleteURL,
          Cloudflare_headers. rewrite Hself, Ht, Hz. reflexivity. }
      apply forRange_err with
        (req := fun p r => Cloudflare_deleteRequest p (cfID r))
        (wrap := fun r => "delete record " ++ cfID r ++ ": ") in H.
      * destruct H as (done & rec & rest & e & exs & tail
                       & Hx & He & Hl & Hm & Hta).
        exists fqdn, st1, records, st2, done, rec, rest, e, exs, tail.
        split; [reflexivity|]. split; [exact L|]. split; [exact Hx|].
        split; [exact He|]. split; [exact Hl|]. split.
        -- rewrite Hm. apply map_ext. intros r. apply Hext.
        -- destruct Hta as [->|[r ->]]; [left; reflexivity|].
           right. exists r. rewrite Hext. reflexivity.
      * intros r s0 s1 Hb. apply orReturn_ok in Hb.
        apply Cloudflare_deleteRecord_ok in Hb. exact Hb.
      * intros r s0 s1 e1 Hb. apply orReturn_err in Hb.
        destruct Hb as (e & Hb & ->).
        apply Cloudflare_deleteRecord_err in Hb. destruct Hb as [Hs Hl].
        split; [exact Hs|]. split; [exists e; reflexivity | exact Hl].
Qed.

Lemma Cloudflare_DeleteRecords_partial_witness :
  exists e,
    fst (Cloudflare_DeleteRecords Fixture.cloudflareDenied Fixture.lib "cf"
           false Fixture.cfStart)
    = inl (wrapError "get zone name: " e).
Proof.
  assert (H0 : Cloudflare_DeleteRecords Fixture.cloudflareDenied Fixture.lib
                 "cf" false Fixture.cfStart
               = (inl (wrapError "get zone name: "
                         (errorString
                            "cloudflare API error: Authentication error")),
                  snd (Cloudflare_DeleteRecords Fixture.cloudflareDenied
                         Fixture.lib "cf" false Fixture.cfStart)))
    by reflexivity.
  destruct (Cloudflare_DeleteRecords_partial _ _ _ _ _ H0)
    as [(e & _ & He)|[(fqdn & st1 & B & _)
                     |(fqdn & st1 & records & st2 & done & rec & rest & e
                       & exs & tail & B & _)]].
  - exists e. rewrite H0. cbn [fst]. rewrite He. reflexivity.
  - vm_compute in B. discriminate.
  - vm_compute in B. discriminate.
Defined.

(** ** A whole successful run through the Vercel provider *)

Lemma Vercel_listRecords_ok :
  forall S (serve : S -> Request -> S * DoResult) lib
         (st st' : State S VercelProvider) records,
    Vercel_listRecords serve lib st = (inr records, st') ->
    self st' = self st /\
    exists r,
      sent (net st')
      = (sent (net st) ++ [(Vercel_listRequest lib (self st), r)])%list.
Proof.
  intros S serve lib st st' records H.
  rewrite Vercel_listRecords_eq in H. apply roundTrip_ok in H.
  destruct H as (req & s' & resp & Hreq & _ & _ & ->).
  apply Vercel_request_inv in Hreq. subst req.
  split; [reflexivity|]. eexists. reflexivity.
Qed.

Lemma Vercel_block_ok :
  forall S (serve : S -> Request -> S * DoResult) lib subdomain ipv6 a ips
         (st st1 st2 : State S VercelProvider),
    Vercel_DeleteRecords serve lib subdomain ipv6 st = (inr tt, st1) ->
    Vercel_CreateRecords serve lib subdomain (a :: ips) st1 = (inr tt, st2) ->
    self st2 = self st /\
    exists records exs,
      sent (net st2) = (sent (net st) ++ exs)%list /\
      map fst exs = vercelBlock lib (self st) subdomain ipv6 records (a :: ips).
Proof.
  intros S serve lib subdomain ipv6 a ips st st1 st2 Hd Hc.
  pose proof (@Vercel_DeleteRecords_ok _ _ _ _ _ _ _ Hd)
    as (records & s0 & L & exd & Hld & Hmd).
  pose proof (@Vercel_listRecords_ok _ _ _ _ _ _ L) as (Hs0 & r & Hl0).
  pose proof (@Vercel_CreateRecords_ok _ _ _ _ _ _ _ Hc)
    as (Hs2 & exc & Hlc & Hmc).
  assert (Hs1 : self st1 = self st).
  { pose proof (@Vercel_DeleteRecords_only S serve lib (self st)
                  (fun _ => True) subdomain ipv6
                  (fun _ => I) (fun _ _ => I) st eq_refl) as [Hi _].
    rewrite Hd in Hi. exact Hi. }
  split; [congruence|].
  exists records, ((Vercel_listRequest lib (self st), r) :: exd ++ exc)%list.
  split.
  - rewrite Hlc, Hld, Hl0, <- !app_assoc. reflexivity.
  - unfold vercelBlock. rewrite Hs1 in Hmc.
    change (map fst ((Vercel_listRequest lib (self st), r) :: exd ++ exc)%list)
      with (Vercel_listRequest lib (self st) :: map fst (exd ++ exc)%list).
    f_equal. rewrite map_app. f_equal; [exact Hmd | exact Hmc].
Qed.



(** ** NewProvider and the families Upload leaves alone *)

(** X15: the provider [NewProvider] returns reports the requested name:
    its Name() is the configured provider name, and a provider is
    returned together with a nil error only. *)
Theorem NewProvider_name : forall Getenv cfg v,
  fst (NewProvider Getenv cfg) = Some v ->
  ProviderValue_Name v = cfgProvider cfg /\
  snd (NewProvider Getenv cfg) = None.
Proof.
  intros Getenv cfg v. unfold NewProvider.
  destruct (String.eqb_spec (cfgProvider cfg) "cloudflare") as [Hc|Hc].
  - destruct (_ =? "")%string; [discriminate|].
    destruct (_ =? "")%string; [discriminate|].
    intros H. inversion H; subst. split; [symmetry; exact Hc | reflexivity].
  - destruct (String.eqb_spec (cfgProvider cfg) "vercel") as [Hv|Hv];
      [|discriminate].
    destruct (_ =? "")%string; [discriminate|].
    destruct (_ =? "")%string; [discriminate|].
    intros H. inversion H; subst. split; [symmetry; exact Hv | reflexivity].
Qed.

Lemma NewProvider_name_witness :
  ProviderValue_Name
    (OfVercel (NewVercelProvider "tok" "example.com" "team1")) = "vercel" /\
  snd (NewProvider (fun name => if (name =? "VERCEL_TOKEN")%string then "tok"
                                else if (name =? "VERCEL_TEAM_ID")%string
                                     then "team1" else "")
                   (mkConfig "vercel" "" "example.com" "cf" 5 "")) = None.
Proof.
  apply (NewProvider_name
           (fun name => if (name =? "VERCEL_TOKEN")%string then "tok"
                        else if (name =? "VERCEL_TEAM_ID")%string
                             then "team1" else "")
           (mkConfig "vercel" "" "example.com" "cf" 5 "")).
  reflexivity.
Defined.

Lemma perform_calls_planned : forall W (provider : Provider W) cs w c,
  In c (map fst (perform provider cs w)) -> In c cs.
Proof.
  intros W provider. induction cs as [|c0 cs IH]; intros w c H; simpl in H.
  - contradiction.
  - destruct (runCall provider c0 w) as [[e|u] w']; simpl in H.
    + destruct H as [<-|[]]. left. reflexivity.
    + destruct H as [<-|H]; [left; reflexivity | right; exact (IH _ _ H)].
Qed.

(** X16: [Upload] leaves alone the family that has no address in the
    list: with no IPv4 address it makes no DeleteRecords call for A
    records (on any subdomain), with only IPv4 addresses none for AAAA
    records, and every call it makes is on the given subdomain. *)
Theorem Upload_leaves_absent_family :
  forall W (provider : Provider W) subdomain ips verbose st tr,
    calls (snd (Upload provider subdomain ips verbose st))
    = (calls st ++ tr)%list ->
    (filter Is4 ips = [] ->
     forall sub, ~ In (CallDelete sub false) (map fst tr)) /\
    (filter (fun ip => negb (Is4 ip)) ips = [] ->
     forall sub, ~ In (CallDelete sub true) (map fst tr)) /\
    (forall sub ipv6, In (CallDelete sub ipv6) (map fst tr) -> sub = subdomain) /\
    (forall sub l, In (CallCreate sub l) (map fst tr) -> sub = subdomain).
Proof.
  intros W provider subdomain ips verbose st tr H.
  rewrite (proj1 (Upload_run provider subdomain ips verbose st)) in H.
  apply app_inv_head in H. subst tr.
  assert (Hin : forall c,
            In c (map fst (perform provider (planned_calls subdomain ips)
                                   (world st))) ->
            In c (planned_calls subdomain ips))
    by (intros c; apply perform_calls_planned).
  unfold planned_calls in Hin.
  repeat split.
  - intros E sub Hc. apply Hin in Hc. rewrite E in Hc. cbn [app] in Hc.
    destruct (filter (fun ip => negb (Is4 ip)) ips); cbn in Hc;
      intuition discriminate.
  - intros E sub Hc. apply Hin in Hc. rewrite E in Hc.
    destruct (filter Is4 ips); cbn in Hc; intuition discriminate.
  - intros sub ipv6 Hc. apply Hin in Hc.
    destruct (filter Is4 ips);
      destruct (filter (fun ip => negb (Is4 ip)) ips); cbn in Hc;
      intuition congruence.
  - intros sub l Hc. apply Hin in Hc.
    destruct (filter Is4 ips);
      destruct (filter (fun ip => negb (Is4 ip)) ips); cbn in Hc;
      intuition congruence.
Qed.

Lemma Upload_leaves_absent_family_witness :
  ~ In (CallDelete "cf" false)
       (map fst (calls (snd (Upload
          (VercelImpl Fixture.vercelServer Fixture.lib) "cf" [Fixture.ip6a]
          false (Fixture.start Fixture.vcStart))))).
Proof.
  assert (H0 : calls (snd (Upload
                  (VercelImpl Fixture.vercelServer Fixture.lib) "cf"
                  [Fixture.ip6a] false (Fixture.start Fixture.vcStart)))
               = (calls (Fixture.start Fixture.vcStart)
                  ++ calls (snd (Upload
                       (VercelImpl Fixture.vercelServer Fixture.lib) "cf"
                       [Fixture.ip6a] false (Fixture.start Fixture.vcStart))))%list)
    by reflexivity.
  destruct (Upload_leaves_absent_family _ _ _ _ _ _ H0) as [H _].
  apply H. reflexivity.
Defined.

(** ** The team of a Vercel provider *)

Lemma append_assoc : forall a b c : string, (a ++ b) ++ c = a ++ b ++ c.
Proof.
  induction a as [|x a IH]; intros b c; simpl; [reflexivity | now rewrite IH].
Qed.

Lemma Vercel_buildURL_team : forall lib p path,
  vc_teamID p <> "" ->
  exists u,
    Vercel_buildURL lib p path
    = u ++ "teamId=" ++ url_QueryEscape lib (vc_teamID p).
Proof.
  intros lib p path Hne. unfold Vercel_buildURL.
  destruct (String.eqb_spec (vc_teamID p) "") as [E|_]; [contradiction|].
  cbn [negb]. destruct (strings_Contains _ _).
  - exists ((vercelAPIBase ++ path) ++ "&").
    rewrite (append_assoc (vercelAPIBase ++ path) "&"). reflexivity.
  - exists ((vercelAPIBase ++ path) ++ "?").
    rewrite (append_assoc (vercelAPIBase ++ path) "?"). reflexivity.
Qed.

(** X17: when the Vercel provider has a team id, every request of an
    [Upload] run, whatever the server answers, goes to a URL that ends
    with "teamId=" followed by the query-escaped team id. *)
Theorem Upload_vercel_team :
  forall S (serve : S -> Request -> S * DoResult) lib subdomain ips verbose st,
    vc_teamID (self (world st)) <> "" ->
    exists exs,
      sent (net (world (snd (Upload (VercelImpl serve lib) subdomain ips
                                    verbose st))))
      = (sent (net (world st)) ++ exs)%list /\
      Forall (fun ex =>
                exists u,
                  ReqURL (fst ex)
                  = u ++ "teamId="
                      ++ url_QueryEscape lib (vc_teamID (self (world st))))
             exs.
Proof.
  intros S serve lib subdomain ips verbose st Hne.
  set (p := self (world st)) in *.
  refine (proj2 (@Upload_only _ (VercelImpl serve lib)
                   (@netLog S VercelProvider) (fun s => self s = p)
                   (fun ex => exists u,
                      ReqURL (fst ex)
                      = u ++ "teamId=" ++ url_QueryEscape lib (vc_teamID p))
                   _ _ subdomain ips verbose st eq_refl)).
  - intros sub ipv6. apply Vercel_DeleteRecords_only.
    + intros dr. apply Vercel_buildURL_team. exact Hne.
    + intros recordID dr. apply Vercel_buildURL_team. exact Hne.
  - intros sub l. apply Vercel_CreateRecords_only.
    intros recordType value dr. apply Vercel_buildURL_team. exact Hne.
Qed.

Lemma Upload_vercel_team_witness :
  exists exs,
    sent (net (world (snd (Upload
      (VercelImpl Fixture.vercelServer Fixture.lib) "cf" [Fixture.ip4a] false
      (Fixture.start
         (mkState (NewVercelProvider "tok" "example.com" "team1")
                  (mkNet 0%nat [])))))))
    = ([] ++ exs)%list /\
    length exs = 4%nat /\
    Forall (fun ex => exists u, ReqURL (fst ex) = u ++ "teamId=team1") exs.
Proof.
  assert (Hne : "team1" <> "") by discriminate.
  destruct (Upload_vercel_team
              Fixture.vercelServer Fixture.lib "cf" [Fixture.ip4a] false
              (Fixture.start
                 (mkState (NewVercelProvider "tok" "example.com" "team1")
                          (mkNet 0%nat [])))
              Hne) as (exs & Hl & Hf).
  exists exs. split; [exact Hl|]. split; [|exact Hf].
  vm_compute in Hl. rewrite <- Hl. reflexivity.
Defined.
